(** * SeExpr parse-tree nodes: the prep (type-check) pass and the eval pass

    A shallow embedding of [src/SeExpr/SeExprNode.cpp].  Every node class of
    that file is a constructor of [SeExprNode]; [prep] and [eval] follow the
    bodies of the member functions of the same name, statement by statement,
    with the mutable state (the variable environment, the expression's error
    list, the storage of local variables, the host's world) passed
    explicitly.

    The headers the file includes ([SeVec3d.h], [SeExprType.h],
    [SeExprEnv.h], [SeExpression.h], [SeExprNode.h], [SeExprFunc.h]) are not
    part of the sources; what [SeExprNode.cpp] uses of them is modelled from
    the specification and marked as such. *)

From Stdlib Require Import ZArith PrimFloat FloatOps SpecFloat Uint63.
From stdpp Require Import base option list gmap strings pretty.

Set Warnings "-register-all".
Local Open Scope string_scope.

(** ** Doubles

    A C++ [double] is an IEEE-754 binary64 number, which is what Rocq's
    primitive [float] is.  The conversions between [bool] and [double] that
    the evaluator relies on are written out here. *)

Abbreviation double := float.

(** [if (x)] / [!x] on a double: zero (of either sign) is false, everything
    else, NaN included, is true. *)
Definition truthy (x : double) : bool := negb (x =? 0)%float.

(** A [bool] stored into a double: [true] is 1.0 and [false] is 0.0. *)
Definition of_bool (b : bool) : double := if b then 1%float else 0%float.

(** ** SeVec3d *)

(** Modelled from the spec: [SeVec3d] is a triple of doubles with lane
    access [v[i]], lane-wise arithmetic, and assignment from a double that
    fills the three lanes ([SeVec3d.h] is not in the sources). *)
Record SeVec3d := mkSeVec3d { lane0 : double; lane1 : double; lane2 : double }.

(** Modelled from the spec: [v[i]] for a lane [i] of 0, 1 or 2. *)
Definition vget (v : SeVec3d) (i : nat) : double :=
  match i with
  | 0 => lane0 v
  | 1 => lane1 v
  | _ => lane2 v
  end.

(** Modelled from the spec: [v[i] = x] for a lane [i] of 0, 1 or 2. *)
Definition vset (v : SeVec3d) (i : nat) (x : double) : SeVec3d :=
  match i with
  | 0 => mkSeVec3d x (lane1 v) (lane2 v)
  | 1 => mkSeVec3d (lane0 v) x (lane2 v)
  | 2 => mkSeVec3d (lane0 v) (lane1 v) x
  | _ => v
  end.

(** Modelled from the spec: [v = x] for a double [x] fills the three
    lanes. *)
Definition vsplat (x : double) : SeVec3d := mkSeVec3d x x x.

(** Modelled from the spec: [a op b] on two vectors works lane by lane. *)
Definition vzip (f : double -> double -> double) (a b : SeVec3d) : SeVec3d :=
  mkSeVec3d (f (lane0 a) (lane0 b)) (f (lane1 a) (lane1 b)) (f (lane2 a) (lane2 b)).

(** [a[1] = a[2] = a[0]]. *)
Definition broadcast (a : SeVec3d) : SeVec3d := vsplat (lane0 a).

(** ** Type descriptor *)

(** Modelled from the spec: the type descriptor of section 3
    ([SeExprType.h] is not in the sources). *)
Inductive SeExprType :=
| ErrorType
| FP1Type
| FPNType (n : nat)
| StringType
| NumericType
| AnyType
| NoneType.

#[global] Instance SeExprType_eq_dec : EqDecision SeExprType.
Proof. solve_decision. Defined.

(** Modelled from the spec: [isValid] is true unless the type is [Error]. *)
Definition isValid (t : SeExprType) : bool :=
  match t with
  | ErrorType => false
  | _ => true
  end.

(** Modelled from the spec: [isFP1] is true only for [FP1]. *)
Definition isFP1 (t : SeExprType) : bool :=
  match t with
  | FP1Type => true
  | _ => false
  end.

(** Modelled from the spec: [isFPN] is true only for [FPN(n)]. *)
Definition isFPN (t : SeExprType) : bool :=
  match t with
  | FPNType _ => true
  | _ => false
  end.

(** Modelled from the spec: the subtype check.  [Error] is a subtype of
    nothing; a type is a subtype of itself; [FP1] and [FPN(n)] are subtypes
    of [Numeric]; every valid type is accepted where the caller has no
    preference ([Any]). *)
Definition isa (t other : SeExprType) : bool :=
  match t with
  | ErrorType => false
  | _ =>
      bool_decide (t = other) ||
      match other with
      | AnyType => true
      | NumericType => isFP1 t || isFPN t
      | _ => false
      end
  end.

(** Modelled from the spec: two types combine under broadcasting when both
    are [FP1], both are [FPN(3)], or one is [FP1] and the other [FPN(3)]. *)
Definition compatibleNum (a b : SeExprType) : bool :=
  match a, b with
  | FP1Type, FP1Type => true
  | FP1Type, FPNType 3 => true
  | FPNType 3, FP1Type => true
  | FPNType 3, FPNType 3 => true
  | _, _ => false
  end.

(** Modelled from the spec: the printed name of a type, as it appears in
    error messages. *)
Definition toString (t : SeExprType) : string :=
  match t with
  | ErrorType => "Error"
  | FP1Type => "FP1"
  | FPNType n => "FPN(" +:+ pretty n +:+ ")"
  | StringType => "String"
  | NumericType => "Numeric"
  | AnyType => "Any"
  | NoneType => "None"
  end.

(** Modelled from the spec: a node's [isVec] is derived from its type; a
    numeric vector wider than one lane is a vector, [FPN(1)] is a scalar. *)
Definition typeIsVec (t : SeExprType) : bool :=
  match t with
  | FPNType n => (1 <? n)%nat
  | _ => false
  end.

(** ** Variable references *)

(** Modelled from the spec: a local variable reference is created by an
    assignment ([new SeExprLocalVarRef(type)]); it has an identity (its
    address, here the number [lv_id] handed out by the allocator) and a type,
    and owns a 3-wide value that lives in the evaluator's store under
    [lv_id]. *)
Record SeExprLocalVarRef := mkLocalVarRef { lv_id : nat; lv_type : SeExprType }.

#[global] Instance SeExprLocalVarRef_eq_dec : EqDecision SeExprLocalVarRef.
Proof. solve_decision. Defined.

(** Modelled from the spec: a variable reference held by a node is a local
    one, or one returned by the host's resolver (an opaque handle together
    with the type its [type()] reports). *)
Inductive SeExprVarRef :=
| LocalVarRef (r : SeExprLocalVarRef)
| ExternalVarRef (handle : nat) (type : SeExprType).

(** Modelled from the spec: [type()] of a variable reference. *)
Definition varType (v : SeExprVarRef) : SeExprType :=
  match v with
  | LocalVarRef r => lv_type r
  | ExternalVarRef _ t => t
  end.

(** ** Variable environment *)

(** Modelled from the spec: a stack of frames, each mapping names to
    variable references; [frame] is the innermost one and [parents] the
    enclosing ones, innermost first ([SeExprEnv.h] is not in the sources). *)
Record SeExprVarEnv := mkEnv {
  frame : gmap string SeExprLocalVarRef;
  parents : list (gmap string SeExprLocalVarRef)
}.

(** Modelled from the spec: the empty root environment [prep] is first
    called with. *)
Definition emptyEnv : SeExprVarEnv := mkEnv ∅ [].

(** Modelled from the spec: [SeExprVarEnv::newScope(parent)] is an empty
    frame that delegates unresolved names to [parent]. *)
Definition newScope (parent : SeExprVarEnv) : SeExprVarEnv :=
  mkEnv ∅ (frame parent :: parents parent).

(** Modelled from the spec: lookup walks the frames in order. *)
Fixpoint findIn (fs : list (gmap string SeExprLocalVarRef)) (name : string)
  : option SeExprLocalVarRef :=
  match fs with
  | [] => None
  | f :: fs' =>
      match f !! name with
      | Some r => Some r
      | None => findIn fs' name
      end
  end.

(** Modelled from the spec: [env.find(name)] looks the name up from the
    innermost frame outward. *)
Definition find (env : SeExprVarEnv) (name : string) : option SeExprLocalVarRef :=
  findIn (frame env :: parents env) name.

(** Modelled from the spec: [env.add(name, ref)] inserts into the current
    frame; a name already there is rebound. *)
Definition add (env : SeExprVarEnv) (name : string) (r : SeExprLocalVarRef)
  : SeExprVarEnv :=
  mkEnv (<[name := r]> (frame env)) (parents env).

(** Modelled from the spec: [env.changesMatch(a, b)] holds when the two
    child scopes declared exactly the same names with the same types. *)
Definition changesMatch (env a b : SeExprVarEnv) : bool :=
  bool_decide (lv_type <$> frame a = lv_type <$> frame b).

(** Modelled from the spec: [env.add(child)] merges the names introduced in
    a child scope into the current frame. *)
Definition addEnv (env child : SeExprVarEnv) : SeExprVarEnv :=
  mkEnv (frame child ∪ frame env) (parents env).

(** ** Function descriptors *)

(** Modelled from the spec: the dispatch shapes of a function descriptor
    ([SeExprFunc.h] is not in the sources).  A [FUNCX] carries the handle of
    the host's callback object. *)
Inductive FuncImpl :=
| FUNC0 (f : double)
| FUNC1 (f : double -> double)
| FUNC2 (f : double -> double -> double)
| FUNC3 (f : double -> double -> double -> double)
| FUNC4 (f : double -> double -> double -> double -> double)
| FUNC5 (f : double -> double -> double -> double -> double -> double)
| FUNC6 (f : double -> double -> double -> double -> double -> double -> double)
| FUNCN (f : nat -> list double -> double)
| FUNC1V (f : SeVec3d -> double)
| FUNC2V (f : SeVec3d -> SeVec3d -> double)
| FUNCNV (f : nat -> list SeVec3d -> double)
| FUNC1VV (f : SeVec3d -> SeVec3d)
| FUNC2VV (f : SeVec3d -> SeVec3d -> SeVec3d)
| FUNCNVV (f : nat -> list SeVec3d -> SeVec3d)
| FUNCX (handle : nat).

(** Modelled from the spec: return type, arity bounds (a negative [maxArgs]
    is unbounded), the declared kind (scalar or not) and the dispatch
    shape. *)
Record SeExprFunc := mkFunc {
  retType : SeExprType;
  minArgs : Z;
  maxArgs : Z;
  isScalar : bool;
  impl : FuncImpl
}.

(** Modelled from the spec: [_func->type() == SeExprFunc::FUNCX], with the
    callback [funcx()] returns. *)
Definition isFUNCX (f : SeExprFunc) : option nat :=
  match impl f with
  | FUNCX h => Some h
  | _ => None
  end.

(** ** Nodes *)

Inductive UnaryOp := NegOp | InvertOp | NotOp.
Inductive CompareOp := EqOp | NeOp | LtOp | GtOp | LeOp | GeOp.
Inductive ArithOp := AddOp | SubOp | MulOp | DivOp | ModOp | ExpOp.

(** One constructor per node class.  The first argument is the node's
    [_type] member; [SeExprAssignNode], [SeExprVarNode] and [SeExprFuncNode]
    also carry the members that [prep] fills in and [eval] reads.  The
    member [_isVec], which nothing writes after construction, is [_isVec]
    below.  The three
    unary classes, the six comparison classes and the six arithmetic classes
    differ only in their operator, which is a tag here.  [SeExprPlainNode]
    is the base class [SeExprNode] used as a node of its own (a list of
    statements).  A vector literal has its three components and a block, an
    if statement, a conditional and the operators have the children their
    [prep] and [eval] index ([child(0)], [child(1)], [child(2)]). *)
Inductive SeExprNode :=
| SeExprPlainNode (_type : SeExprType) (_children : list SeExprNode)
| SeExprBlockNode (_type : SeExprType) (c0 c1 : SeExprNode)
| SeExprIfThenElseNode (_type : SeExprType) (c0 c1 c2 : SeExprNode)
| SeExprAssignNode (_type : SeExprType) (_name : string)
    (_var : option SeExprLocalVarRef) (_assignedType : SeExprType) (c0 : SeExprNode)
| SeExprVecNode (_type : SeExprType) (c0 c1 c2 : SeExprNode)
| SeExprCondNode (_type : SeExprType) (c0 c1 c2 : SeExprNode)
| SeExprAndNode (_type : SeExprType) (c0 c1 : SeExprNode)
| SeExprOrNode (_type : SeExprType) (c0 c1 : SeExprNode)
| SeExprSubscriptNode (_type : SeExprType) (c0 c1 : SeExprNode)
| SeExprUnaryNode (op : UnaryOp) (_type : SeExprType) (c0 : SeExprNode)
| SeExprCompareNode (op : CompareOp) (_type : SeExprType) (c0 c1 : SeExprNode)
| SeExprArithNode (op : ArithOp) (_type : SeExprType) (c0 c1 : SeExprNode)
| SeExprVarNode (_type : SeExprType) (_name : string) (_var : option SeExprVarRef)
| SeExprNumNode (_type : SeExprType) (_val : double)
| SeExprStrNode (_type : SeExprType) (_str : string)
| SeExprFuncNode (_type : SeExprType) (_name : string)
    (_func : option SeExprFunc) (_nargs : nat) (_children : list SeExprNode).

Abbreviation SeExprNegNode := (SeExprUnaryNode NegOp).
Abbreviation SeExprInvertNode := (SeExprUnaryNode InvertOp).
Abbreviation SeExprNotNode := (SeExprUnaryNode NotOp).
Abbreviation SeExprEqNode := (SeExprCompareNode EqOp).
Abbreviation SeExprNeNode := (SeExprCompareNode NeOp).
Abbreviation SeExprLtNode := (SeExprCompareNode LtOp).
Abbreviation SeExprGtNode := (SeExprCompareNode GtOp).
Abbreviation SeExprLeNode := (SeExprCompareNode LeOp).
Abbreviation SeExprGeNode := (SeExprCompareNode GeOp).
Abbreviation SeExprAddNode := (SeExprArithNode AddOp).
Abbreviation SeExprSubNode := (SeExprArithNode SubOp).
Abbreviation SeExprMulNode := (SeExprArithNode MulOp).
Abbreviation SeExprDivNode := (SeExprArithNode DivOp).
Abbreviation SeExprModNode := (SeExprArithNode ModOp).
Abbreviation SeExprExpNode := (SeExprArithNode ExpOp).

(** The node's [_type] member. *)
Definition type (n : SeExprNode) : SeExprType :=
  match n with
  | SeExprPlainNode t _ | SeExprBlockNode t _ _ | SeExprIfThenElseNode t _ _ _
  | SeExprAssignNode t _ _ _ _ | SeExprVecNode t _ _ _ | SeExprCondNode t _ _ _
  | SeExprAndNode t _ _ | SeExprOrNode t _ _ | SeExprSubscriptNode t _ _
  | SeExprUnaryNode _ t _ | SeExprCompareNode _ t _ _ | SeExprArithNode _ t _ _
  | SeExprVarNode t _ _ | SeExprNumNode t _ | SeExprStrNode t _
  | SeExprFuncNode t _ _ _ _ => t
  end.

(** Modelled from the spec: [isVec()] is derived from the node's type
    ([SeExprNode.h] is not in the sources). *)
Definition isVec (n : SeExprNode) : bool := typeIsVec (type n).

(** The data member [_isVec] of the node [n], which the [eval] functions
    test on their own node.  Each of the eight constructors of [SeExprNode]
    initialises it to 0 and no function of [SeExprNode.cpp] assigns it: the
    comment at the head of the file expects every [prep] to set it, and no
    [prep] does.  It is therefore 0 at every node, before [prep] and
    after. *)
Definition _isVec (n : SeExprNode) : bool := false.

(** ** The expression's mutable state *)

(** Modelled from the spec: what a node reaches through its [_expr]
    back-pointer while it is prepped: the error list, the thread-safety flag
    with the names of the offending functions, and the allocator that gives
    each [new SeExprLocalVarRef] its identity ([SeExpression.h] is not in the
    sources). *)
Record SeExpression := mkExpr {
  errors : list string;
  threadUnsafe : bool;
  threadUnsafeFunctionCalls : list string;
  allocated : nat
}.

(** Modelled from the spec: an expression before [prep]: no error, the
    thread-safety flag cleared. *)
Definition emptyExpr : SeExpression := mkExpr [] false [] 0.

(** Modelled from the spec: [addError(msg)] appends to the expression's
    error list. *)
Definition addError (ex : SeExpression) (msg : string) : SeExpression :=
  mkExpr (errors ex ++ [msg]) (threadUnsafe ex) (threadUnsafeFunctionCalls ex)
    (allocated ex).

(** Modelled from the spec: [_expr->setThreadUnsafe(name)] sets the flag
    and records the name of the function. *)
Definition setThreadUnsafe (ex : SeExpression) (name : string) : SeExpression :=
  mkExpr (errors ex) true (threadUnsafeFunctionCalls ex ++ [name]) (allocated ex).

(** Modelled from the spec: [new SeExprLocalVarRef(t)] is a reference
    distinct from all earlier ones. *)
Definition newLocalVarRef (ex : SeExpression) (t : SeExprType)
  : SeExprLocalVarRef * SeExpression :=
  (mkLocalVarRef (allocated ex) t,
   mkExpr (errors ex) (threadUnsafe ex) (threadUnsafeFunctionCalls ex)
     (S (allocated ex))).

(** What a call of [prep] leaves behind: the node with its members updated,
    the returned type, the environment and the expression's state. *)
Definition PrepResult : Type :=
  SeExprNode * SeExprType * SeExprVarEnv * SeExpression.

(** What the host supplies for the prep pass: the expression's variable and
    function resolvers, the process-wide function registry
    ([SeExprFunc::lookup]) and, for each [FUNCX] handle, whether the callback
    is thread safe and its own [prep].  The callback receives the children of
    the function node and, for each child, that child's [prep]; it returns
    the children as it leaves them. *)
Record PrepHost := mkPrepHost {
  resolveVar : string -> option SeExprVarRef;
  resolveFunc : string -> option SeExprFunc;
  lookup : string -> option SeExprFunc;
  isThreadSafe : nat -> bool;
  funcx_prep : nat -> list SeExprNode ->
               list (SeExprType -> SeExprVarEnv -> SeExpression -> PrepResult) ->
               SeExprType -> SeExprVarEnv -> SeExpression ->
               list SeExprNode * SeExprType * SeExprVarEnv * SeExpression
}.

(** ** The loops of the prep pass over a node's children *)

Section ChildLoops.
Variable prep : SeExprNode -> SeExprType -> SeExprVarEnv -> SeExpression -> PrepResult.

(** The loop of [SeExprNode::prep]:
    [error = error || !child->prep(AnyType, env).isValid()].  Once [error]
    is set, [||] no longer evaluates its right operand: the remaining
    children are not prepped. *)
Fixpoint prepChildren (children : list SeExprNode) (error : bool)
    (env : SeExprVarEnv) (ex : SeExpression)
  : list SeExprNode * bool * SeExprVarEnv * SeExpression :=
  match children with
  | [] => ([], error, env, ex)
  | child :: rest =>
      if error then (child :: rest, true, env, ex)
      else
        let '(child, t, env, ex) := prep child AnyType env ex in
        let '(rest, error, env, ex) := prepChildren rest (negb (isValid t)) env ex in
        (child :: rest, error, env, ex)
  end.

(** The loop of [SeExprFuncNode::prepArgs]. *)
Fixpoint prepArgsLoop (name : string) (wanted : SeExprType)
    (children : list SeExprNode) (count : nat) (error : bool)
    (env : SeExprVarEnv) (ex : SeExpression)
  : list SeExprNode * bool * SeExprVarEnv * SeExpression :=
  match children with
  | [] => ([], error, env, ex)
  | child :: rest =>
      let '(child, childType, env, ex) := prep child wanted env ex in
      let '(error, ex) :=
        if negb (isValid childType) then (true, ex)
        else if negb (isa childType wanted) then
          (true, addError ex ("Expected " +:+ toString wanted +:+ " type from "
                              +:+ pretty count +:+ " operand to " +:+ name
                              +:+ " function but found" +:+ toString childType))
        else (error, ex) in
      let '(rest, error, env, ex) := prepArgsLoop name wanted rest (S count) error env ex in
      (child :: rest, error, env, ex)
  end.
End ChildLoops.

(** The operator as the messages of the comparison and arithmetic nodes
    print it. *)
Definition compareSym (op : CompareOp) : string :=
  match op with
  | EqOp => "==" | NeOp => "!=" | LtOp => "<" | GtOp => ">" | LeOp => "<=" | GeOp => ">="
  end.

Definition arithSym (op : ArithOp) : string :=
  match op with
  | AddOp => "+" | SubOp => "-" | MulOp => "*" | DivOp => "/" | ModOp => "%" | ExpOp => "^"
  end.

Definition unaryName (op : UnaryOp) : string :=
  match op with
  | NegOp => "negation" | InvertOp => "inversion" | NotOp => "not"
  end.

(** The operand check shared by the two-operand nodes:
    [if (!t.isValid()) error = true;
     else if (!t.isa(expected)) { error = true; addError(msg); }]. *)
Definition checkOperand (t expected : SeExprType) (msg : string)
    (error : bool) (ex : SeExpression) : bool * SeExpression :=
  if negb (isValid t) then (true, ex)
  else if negb (isa t expected) then (true, addError ex msg)
  else (error, ex).

(** The message of the condition check of [SeExprIfThenElseNode::prep]. *)
Definition ifConditionError (condType : SeExprType) : string :=
  "Expected FP1 type in condition expression of if statement but found "
  +:+ toString condType.

(** The message of the scope check of [SeExprIfThenElseNode::prep]. *)
Definition ifMismatchError : string :=
  "Types of variables do not match after if statement".

(** The messages of the operand checks of the comparison and arithmetic
    nodes, [which] being "first" or "second" and [sym] the operator. *)
Definition operandError (which sym : string) (t : SeExprType) : string :=
  "Expected Numeric type from " +:+ which +:+ " operand to " +:+ sym
  +:+ " operator but found" +:+ toString t.

Definition incompatibleError (sym : string) (a b : SeExprType) : string :=
  "Types " +:+ toString a +:+ " and " +:+ toString b
  +:+ " are not compatible types for " +:+ sym +:+ " operator".

(** The message of [SeExprVarNode::prep]. *)
Definition noVariableError (name : string) : string :=
  "No variable named $" +:+ name.

(** The body of the loop of [SeExprVecNode::prep] for the component in
    position [count]. *)
Definition checkComponent (childType : SeExprType) (count : nat)
    (error : bool) (ex : SeExpression) : bool * SeExpression :=
  checkOperand childType FP1Type
    ("Expected FP1 type in vector literal but found " +:+ toString childType
     +:+ " in position " +:+ pretty count) error ex.

(** ** The prep pass *)

Section Prep.
Variable host : PrepHost.

(** [prep(wanted, env)], one case per node class.  The local [_type] is the
    node's member of that name; [error] is the local flag of the C++
    body. *)
Fixpoint prep (n : SeExprNode) (wanted : SeExprType) (env : SeExprVarEnv)
    (ex : SeExpression) {struct n} : PrepResult :=
  match n with
  (* SeExprNode::prep *)
  | SeExprPlainNode _ children =>
      let _type := NoneType in
      let '(children, error, env, ex) := prepChildren prep children false env ex in
      let _type := if error then ErrorType else _type in
      (SeExprPlainNode _type children, _type, env, ex)

  (* SeExprBlockNode::prep *)
  | SeExprBlockNode _ c0 c1 =>
      let '(c0, t0, env, ex) := prep c0 AnyType env ex in
      let valid := isValid t0 in
      let '(c1, _type, env, ex) := prep c1 wanted env ex in
      let _type := if negb valid then ErrorType else _type in
      (SeExprBlockNode _type c0 c1, _type, env, ex)

  (* SeExprIfThenElseNode::prep *)
  | SeExprIfThenElseNode _ c0 c1 c2 =>
      let error := false in
      let _type := NoneType in
      let '(c0, condType, env, ex) := prep c0 FP1Type env ex in
      let '(error, ex) :=
        checkOperand condType FP1Type (ifConditionError condType) error ex in
      let thenEnv := newScope env in
      let '(c1, thenType, thenEnv, ex) := prep c1 AnyType thenEnv ex in
      let elseEnv := newScope env in
      let '(c2, elseType, elseEnv, ex) := prep c2 AnyType elseEnv ex in
      let error :=
        if negb (isValid thenType) || negb (isValid elseType) then true else error in
      let '(error, env, ex) :=
        if changesMatch env thenEnv elseEnv then (error, addEnv env thenEnv, ex)
        else (true, env, addError ex ifMismatchError) in
      let _type := if error then ErrorType else _type in
      (SeExprIfThenElseNode _type c0 c1 c2, _type, env, ex)

  (* SeExprAssignNode::prep *)
  | SeExprAssignNode _ name var _ c0 =>
      let _type := NoneType in
      let '(c0, _assignedType, env, ex) := prep c0 AnyType env ex in
      let _type := if negb (isValid _assignedType) then ErrorType else _type in
      let '(ref, ex) := newLocalVarRef ex _assignedType in
      let env := add env name ref in
      (SeExprAssignNode _type name var _assignedType c0, _type, env, ex)

  (* SeExprVecNode::prep *)
  | SeExprVecNode _ c0 c1 c2 =>
      let error := false in
      let _type := FPNType 3 in
      let '(c0, t0, env, ex) := prep c0 FP1Type env ex in
      let '(error, ex) := checkComponent t0 1 error ex in
      let '(c1, t1, env, ex) := prep c1 FP1Type env ex in
      let '(error, ex) := checkComponent t1 2 error ex in
      let '(c2, t2, env, ex) := prep c2 FP1Type env ex in
      let '(error, ex) := checkComponent t2 3 error ex in
      let _type := if error then ErrorType else _type in
      (SeExprVecNode _type c0 c1 c2, _type, env, ex)

  (* SeExprCondNode::prep *)
  | SeExprCondNode _ c0 c1 c2 =>
      let error := false in
      let _type := ErrorType in
      let '(c0, condType, env, ex) := prep c0 FP1Type env ex in
      let '(error, ex) :=
        checkOperand condType FP1Type
          ("Expected FP1 type in condition of ternary conditional expression but found "
           +:+ toString condType) error ex in
      let '(c1, thenType, env, ex) := prep c1 wanted env ex in
      let '(c2, elseType, env, ex) := prep c2 wanted env ex in
      let '(error, ex) :=
        if negb (isValid thenType) || negb (isValid elseType) then (true, ex)
        else
          let '(error, ex) :=
            if isa thenType wanted then
              (true, addError ex ("Expected " +:+ toString wanted
                 +:+ " type from then branch of ternary conditional expression but found "
                 +:+ toString thenType))
            else (error, ex) in
          if isa elseType wanted then
            (true, addError ex ("Expected " +:+ toString wanted
               +:+ " type from else branch of ternary conditional expression but found "
               +:+ toString elseType))
          else (error, ex) in
      let _type := if negb error then thenType else _type in
      (SeExprCondNode _type c0 c1 c2, _type, env, ex)

  (* SeExprAndNode::prep *)
  | SeExprAndNode _ c0 c1 =>
      let error := false in
      let _type := FP1Type in
      let '(c0, firstType, env, ex) := prep c0 FP1Type env ex in
      let '(error, ex) :=
        checkOperand firstType FP1Type
          ("Expected FP1 type from first operand of and expression but found "
           +:+ toString firstType) error ex in
      let '(c1, secondType, env, ex) := prep c1 FP1Type env ex in
      let '(error, ex) :=
        checkOperand secondType FP1Type
          ("Expected FP1 type from second operand of and expression but found "
           +:+ toString secondType) error ex in
      let _type := if error then ErrorType else _type in
      (SeExprAndNode _type c0 c1, _type, env, ex)

  (* SeExprOrNode::prep *)
  | SeExprOrNode _ c0 c1 =>
      let error := false in
      let _type := FP1Type in
      let '(c0, firstType, env, ex) := prep c0 FP1Type env ex in
      let '(error, ex) :=
        checkOperand firstType FP1Type
          ("Expected FP1 type from first operand of or expression but found "
           +:+ toString firstType) error ex in
      let '(c1, secondType, env, ex) := prep c1 FP1Type env ex in
      let '(error, ex) :=
        checkOperand secondType FP1Type
          ("Expected FP1 type from second operand of or expression but found "
           +:+ toString secondType) error ex in
      let _type := if error then ErrorType else _type in
      (SeExprOrNode _type c0 c1, _type, env, ex)

  (* SeExprSubscriptNode::prep *)
  | SeExprSubscriptNode _ c0 c1 =>
      let error := false in
      let _type := FP1Type in
      let '(c0, vecType, env, ex) := prep c0 NumericType env ex in
      let '(error, ex) :=
        checkOperand vecType NumericType
          ("Expected Numeric type from vector operand of subscript operator but found "
           +:+ toString vecType) error ex in
      let '(c1, scriptType, env, ex) := prep c1 FP1Type env ex in
      let '(error, ex) :=
        checkOperand scriptType FP1Type
          ("Expected FP1 type from subscript operand of subscript operator but found "
           +:+ toString scriptType) error ex in
      let _type := if error then ErrorType else _type in
      (SeExprSubscriptNode _type c0 c1, _type, env, ex)

  (* SeExprNegNode::prep, SeExprInvertNode::prep, SeExprNotNode::prep *)
  | SeExprUnaryNode op _ c0 =>
      let '(c0, _type, env, ex) := prep c0 wanted env ex in
      let '(_type, ex) :=
        if isValid _type && negb (isa _type NumericType) then
          (ErrorType,
           addError ex ("Expected Numeric type from operand to " +:+ unaryName op
                        +:+ " operator but found " +:+ toString _type))
        else (_type, ex) in
      (SeExprUnaryNode op _type c0, _type, env, ex)

  (* SeExprEqNode::prep ... SeExprGeNode::prep *)
  | SeExprCompareNode op _ c0 c1 =>
      let error := false in
      let _type := FP1Type in
      let '(c0, firstType, env, ex) := prep c0 NumericType env ex in
      let '(error, ex) :=
        checkOperand firstType NumericType
          (operandError "first" (compareSym op) firstType) error ex in
      let '(c1, secondType, env, ex) := prep c1 NumericType env ex in
      let '(error, ex) :=
        checkOperand secondType NumericType
          (operandError "second" (compareSym op) secondType) error ex in
      let '(error, ex) :=
        if isValid firstType && isValid secondType
           && negb (compatibleNum firstType secondType) then
          (true, addError ex (incompatibleError (compareSym op) firstType secondType))
        else (error, ex) in
      let _type := if error then ErrorType else _type in
      (SeExprCompareNode op _type c0 c1, _type, env, ex)

  (* SeExprAddNode::prep ... SeExprExpNode::prep *)
  | SeExprArithNode op _ c0 c1 =>
      let error := false in
      let _type := ErrorType in
      let '(c0, firstType, env, ex) := prep c0 NumericType env ex in
      let '(error, ex) :=
        checkOperand firstType NumericType
          (operandError "first" (arithSym op) firstType) error ex in
      let '(c1, secondType, env, ex) := prep c1 NumericType env ex in
      let '(error, ex) :=
        checkOperand secondType NumericType
          (operandError "second" (arithSym op) secondType) error ex in
      let '(error, ex) :=
        if isValid firstType && isValid secondType
           && negb (compatibleNum firstType secondType) then
          (true, addError ex (incompatibleError (arithSym op) firstType secondType))
        else (error, ex) in
      let _type :=
        if negb error then (if isFP1 firstType then secondType else firstType)
        else _type in
      (SeExprArithNode op _type c0 c1, _type, env, ex)

  (* SeExprVarNode::prep *)
  | SeExprVarNode _ name _ =>
      let _type := ErrorType in
      let _var := LocalVarRef <$> find env name in
      let _var := match _var with
                  | Some v => Some v
                  | None => resolveVar host name
                  end in
      match _var with
      | None =>
          (SeExprVarNode _type name _var, _type, env,
           addError ex (noVariableError name))
      | Some v =>
          let _type := varType v in
          (SeExprVarNode _type name _var, _type, env, ex)
      end

  (* SeExprNumNode::prep *)
  | SeExprNumNode _ v =>
      let _type := FP1Type in
      (SeExprNumNode _type v, _type, env, ex)

  (* SeExprStrNode::prep *)
  | SeExprStrNode _ str =>
      let _type := StringType in
      (SeExprStrNode _type str, _type, env, ex)

  (* SeExprFuncNode::prep *)
  | SeExprFuncNode _ name _ nargs children =>
      let error := false in
      let _type := ErrorType in
      let _func := resolveFunc host name in
      let _func := match _func with
                   | Some f => Some f
                   | None => lookup host name
                   end in
      match _func with
      | None =>
          let ex := addError ex ("Function " +:+ name +:+ " has no definition") in
          (* SeExprNode::prep(AnyType, env), which assigns _type *)
          let _type := NoneType in
          let '(children, err, env, ex) := prepChildren prep children false env ex in
          let _type := if err then ErrorType else _type in
          let _type := if error then ErrorType else _type in
          (SeExprFuncNode _type name _func nargs children, _type, env, ex)
      | Some f =>
          let _type := retType f in
          let nargs := length children in
          if (Z.of_nat nargs <? minArgs f)%Z then
            let error := true in
            let ex := addError ex ("Too few args for function " +:+ name) in
            let _type := NoneType in
            let '(children, err, env, ex) := prepChildren prep children false env ex in
            let _type := if err then ErrorType else _type in
            let _type := if error then ErrorType else _type in
            (SeExprFuncNode _type name _func nargs children, _type, env, ex)
          else if (maxArgs f <? Z.of_nat nargs)%Z && (0 <=? maxArgs f)%Z then
            let error := true in
            let ex := addError ex ("Too many args for function " +:+ name) in
            let _type := NoneType in
            let '(children, err, env, ex) := prepChildren prep children false env ex in
            let _type := if err then ErrorType else _type in
            let _type := if error then ErrorType else _type in
            (SeExprFuncNode _type name _func nargs children, _type, env, ex)
          else
            match isFUNCX f with
            | Some h =>
                let ex := if negb (isThreadSafe host h)
                          then setThreadUnsafe ex name else ex in
                let '(children, t, env, ex) :=
                  funcx_prep host h children (map prep children) wanted env ex in
                let error := if negb (isValid t) then true else error in
                let _type := if error then ErrorType else _type in
                (SeExprFuncNode _type name _func nargs children, _type, env, ex)
            | None =>
                let '(children, err, env, ex) :=
                  prepArgsLoop prep "placeholder"
                    (if isScalar f then FP1Type else FPNType 3)
                    children 0 false env ex in
                let error := err in
                let _type := if error then ErrorType else _type in
                (SeExprFuncNode _type name _func nargs children, _type, env, ex)
            end
      end
  end.
End Prep.

(** ** The eval pass: state *)

(** What the C++ platform supplies to the evaluator: [floor] and [pow] of
    [math.h], the conversion [int(x)] of a double (truncation toward zero
    where the value fits an [int]), and the content of a [SeVec3d] that was
    declared without an initialiser. *)
Record Platform := mkPlatform {
  floor : double -> double;
  pow : double -> double -> double;
  int_of_double : double -> Z;
  indeterminate : SeVec3d
}.

(** The integer part of a finite double, rounded toward zero: the double
    [(-1)^s * m * 2^e] has the integer part [m * 2^e] when [e] is not
    negative and [m / 2^(-e)], rounded down, otherwise, with the sign of the
    double.  An infinity and a NaN have none. *)
Definition truncate (x : double) : option Z :=
  match Prim2SF x with
  | S754_zero _ => Some 0%Z
  | S754_finite s m e =>
      let z := Z.shiftl (Z.pos m) e in
      Some (if s then (- z)%Z else z)
  | _ => None
  end.

(** The values of an [int] of 32 bits. *)
Definition fitsInt (i : Z) : Prop := (-2147483648 <= i <= 2147483647)%Z.

(** The platform's [int(x)] is the conversion of the C++ standard: the
    double truncated toward zero, wherever the truncated value fits an
    [int].  Elsewhere (a value out of range, an infinity, a NaN) the
    standard leaves the conversion undefined and nothing is asked. *)
Definition truncates (platform : Platform) : Prop :=
  forall x i, truncate x = Some i -> fitsInt i -> int_of_double platform x = i.

(** The state the evaluator runs in: the storage of the local variables
    (the [val] member of each [SeExprLocalVarRef], by identity) and the
    host's world, which [FUNCX] callbacks may change. *)
Record EvalState (W : Type) := mkEvalState {
  locals : gmap nat SeVec3d;
  world : W
}.
Arguments mkEvalState {W} _ _.
Arguments locals {W} _.
Arguments world {W} _.

(** The [SeVec3d& result] parameter of [eval].  The vector referred to is
    either one nobody else names while the call runs (a local of the caller,
    or the caller's own output), whose content is then carried along, or the
    storage of a local variable, which nodes below may read while it is
    being written. *)
Inductive ResultRef :=
| Temp (v : SeVec3d)
| Storage (id : nat).

Section EvalState.
Context {W : Type}.
Variable platform : Platform.

(** The [val] member of the local variable [id]. *)
Definition readLocal (st : EvalState W) (id : nat) : SeVec3d :=
  default (indeterminate platform) (locals st !! id).

Definition readRef (st : EvalState W) (result : ResultRef) : SeVec3d :=
  match result with
  | Temp v => v
  | Storage id => readLocal st id
  end.

(** [result = v]. *)
Definition writeRef (st : EvalState W) (result : ResultRef) (v : SeVec3d)
  : EvalState W * ResultRef :=
  match result with
  | Temp _ => (st, Temp v)
  | Storage id => (mkEvalState (<[id := v]> (locals st)) (world st), Storage id)
  end.

(** [result[i] = x]. *)
Definition setLane (st : EvalState W) (result : ResultRef) (i : nat) (x : double)
  : EvalState W * ResultRef :=
  writeRef st result (vset (readRef st result) i x).

(** [result[1] = result[2] = result[0]]. *)
Definition broadcastRef (st : EvalState W) (result : ResultRef)
  : EvalState W * ResultRef :=
  writeRef st result (broadcast (readRef st result)).
End EvalState.

(** What the host supplies for the eval pass: the [eval] of each external
    variable reference, which reads the host's world and writes the result
    vector, and the [eval] of each [FUNCX] callback, which receives the
    function node (its name, [_nargs], [isVec()] and children, with each
    child's [eval]) and the result vector. *)
Record EvalHost (W : Type) := mkEvalHost {
  extVar_eval : nat -> string -> W -> SeVec3d -> SeVec3d;
  funcx_eval : nat -> string -> nat -> bool -> list SeExprNode ->
               list (EvalState W -> ResultRef -> EvalState W * ResultRef) ->
               EvalState W -> ResultRef -> EvalState W * ResultRef
}.
Arguments mkEvalHost {W} _ _.
Arguments extVar_eval {W} _ _ _ _ _.
Arguments funcx_eval {W} _ _ _ _ _ _ _ _ _.

(** ** The eval pass: arithmetic *)

Section Arith.
Variable platform : Platform.

(** [niceMod] of the source. *)
Definition niceMod (a b : double) : double :=
  if (b =? 0)%float then 0%float
  else (a - floor platform (a / b) * b)%float.

(** The scalar operation of each arithmetic node. *)
Definition arith (op : ArithOp) (a b : double) : double :=
  match op with
  | AddOp => (a + b)%float
  | SubOp => (a - b)%float
  | MulOp => (a * b)%float
  | DivOp => (a / b)%float
  | ModOp => niceMod a b
  | ExpOp => pow platform a b
  end.

(** The operation of each unary node on one lane. *)
Definition unary (op : UnaryOp) (a : double) : double :=
  match op with
  | NegOp => (- a)%float
  | InvertOp => (1 - a)%float
  | NotOp => of_bool (negb (truthy a))
  end.

(** The result of each comparison node, from the operands as evaluated
    (and, for [==] and [!=], widened to three lanes). *)
Definition compare (op : CompareOp) (a b : SeVec3d) : bool :=
  match op with
  | EqOp => (lane0 a =? lane0 b)%float && (lane1 a =? lane1 b)%float
            && (lane2 a =? lane2 b)%float
  | NeOp => negb (lane0 a =? lane0 b)%float || negb (lane1 a =? lane1 b)%float
            || negb (lane2 a =? lane2 b)%float
  | LtOp => (lane0 a <? lane0 b)%float
  | GtOp => (lane0 b <? lane0 a)%float
  | LeOp => (lane0 a <=? lane0 b)%float
  | GeOp => (lane0 b <=? lane0 a)%float
  end.

(** The [switch] of [SeExprSubscriptNode::eval]. *)
Definition subscript (vecIsVec : bool) (a : SeVec3d) (index : Z) : double :=
  if vecIsVec then
    match index with
    | 0%Z => lane0 a
    | 1%Z => lane1 a
    | 2%Z => lane2 a
    | _ => 0%float
    end
  else
    match index with
    | 0%Z | 1%Z | 2%Z => lane0 a
    | _ => 0%float
    end.

(** [a[k][i]], the lane [i] of the argument [k]. *)
Definition argLane (a : list SeVec3d) (k i : nat) : double :=
  vget (nth k a (indeterminate platform)) i.

(** The [switch (_func->type())] of [SeExprFuncNode::eval] for the
    iteration [i]; a [FUNCX] never reaches it and falls to [default]. *)
Definition callFunc (f : SeExprFunc) (nargs : nat) (a : list SeVec3d) (i : nat)
    (result : SeVec3d) : SeVec3d :=
  let a_ k := nth k a (indeterminate platform) in
  match impl f with
  | FUNC0 g => vset result i g
  | FUNC1 g => vset result i (g (argLane a 0 i))
  | FUNC2 g => vset result i (g (argLane a 0 i) (argLane a 1 i))
  | FUNC3 g => vset result i (g (argLane a 0 i) (argLane a 1 i) (argLane a 2 i))
  | FUNC4 g =>
      vset result i (g (argLane a 0 i) (argLane a 1 i) (argLane a 2 i) (argLane a 3 i))
  | FUNC5 g =>
      vset result i (g (argLane a 0 i) (argLane a 1 i) (argLane a 2 i) (argLane a 3 i)
                       (argLane a 4 i))
  | FUNC6 g =>
      vset result i (g (argLane a 0 i) (argLane a 1 i) (argLane a 2 i) (argLane a 3 i)
                       (argLane a 4 i) (argLane a 5 i))
  | FUNCN g => vset result i (g nargs (map (fun A => vget A i) (firstn nargs a)))
  | FUNC1V g => vset result i (g (a_ 0))
  | FUNC2V g => vset result i (g (a_ 0) (a_ 1))
  | FUNCNV g => vset result i (g nargs a)
  | FUNC1VV g => g (a_ 0)
  | FUNC2VV g => g (a_ 0) (a_ 1)
  | FUNCNVV g => g nargs a
  | FUNCX _ => vset (vset (vset result 2 0%float) 1 0%float) i 0%float
  end.

(** [for (int i = 0; i < niter; i++) switch ...], from [i] on. *)
Fixpoint callLoop (f : SeExprFunc) (nargs : nat) (a : list SeVec3d)
    (i count : nat) (result : SeVec3d) : SeVec3d :=
  match count with
  | 0 => result
  | S count' => callLoop f nargs a (S i) count' (callFunc f nargs a i result)
  end.
End Arith.

(** ** The eval pass *)

Section ChildEvalLoops.
Context {W : Type}.
Variable platform : Platform.
Variable eval : SeExprNode -> EvalState W -> ResultRef -> EvalState W * ResultRef.

(** The loop of [SeExprNode::eval]: every child is evaluated into the same
    local [val]. *)
Fixpoint evalChildren (children : list SeExprNode) (st : EvalState W)
    (val : ResultRef) : EvalState W * ResultRef :=
  match children with
  | [] => (st, val)
  | child :: rest =>
      let '(st, val) := eval child st val in
      evalChildren rest st val
  end.

(** The loop of [SeExprFuncNode::evalArgs]: each of the first [nargs]
    children is evaluated into its slot of the argument buffer and widened
    when it is a scalar. *)
Fixpoint evalArgs (children : list SeExprNode) (nargs : nat) (st : EvalState W)
  : EvalState W * list SeVec3d :=
  match children, nargs with
  | child :: rest, S nargs' =>
      let '(st, A) := eval child st (Temp (indeterminate platform)) in
      let A := readRef platform st A in
      let A := if negb (isVec child) then broadcast A else A in
      let '(st, a) := evalArgs rest nargs' st in
      (st, A :: a)
  | _, _ => (st, [])
  end.
End ChildEvalLoops.

Section Eval.
Context {W : Type}.
Variable platform : Platform.
Variable host : EvalHost W.

(** A [SeVec3d] declared without an initialiser. *)
Definition fresh : ResultRef := Temp (indeterminate platform).

(** Modelled from the spec: [SeExprNumNode::eval] writes the stored literal
    into lane 0 of the result (the function is defined in [SeExprNode.h],
    which is not in the sources). *)
Definition evalNum (v : double) (st : EvalState W) (result : ResultRef)
  : EvalState W * ResultRef :=
  setLane platform st result 0 v.

(** Modelled from the spec: a string literal is never evaluated numerically;
    [SeExprStrNode::eval] leaves the result as it is. *)
Definition evalStr (st : EvalState W) (result : ResultRef)
  : EvalState W * ResultRef :=
  (st, result).

(** Modelled from the spec: [SeExprLocalVarRef::eval] copies the value the
    variable owns into the result. *)
Definition evalLocalVar (r : SeExprLocalVarRef) (st : EvalState W)
    (result : ResultRef) : EvalState W * ResultRef :=
  writeRef st result (readLocal platform st (lv_id r)).

(** Modelled from the spec: the [eval] of a variable reference the host
    returned reads the host's world and writes the result. *)
Definition evalExternalVar (handle : nat) (name : string) (st : EvalState W)
    (result : ResultRef) : EvalState W * ResultRef :=
  writeRef st result (extVar_eval host handle name (world st) (readRef platform st result)).

(** [eval(result)], one case per node class. *)
Fixpoint eval (n : SeExprNode) (st : EvalState W) (result : ResultRef)
    {struct n} : EvalState W * ResultRef :=
  match n with
  (* SeExprNode::eval *)
  | SeExprPlainNode _ children =>
      let '(st, val) := evalChildren eval children st fresh in
      writeRef st result (vsplat 0%float)

  (* SeExprBlockNode::eval *)
  | SeExprBlockNode _ c0 c1 =>
      let '(st, val) := eval c0 st fresh in
      eval c1 st result

  (* SeExprIfThenElseNode::eval *)
  | SeExprIfThenElseNode _ c0 c1 c2 =>
      let '(st, val) := eval c0 st fresh in
      let '(st, val) :=
        if truthy (lane0 (readRef platform st val)) then eval c1 st val
        else eval c2 st val in
      writeRef st result (vsplat 0%float)

  (* SeExprAssignNode::eval *)
  | SeExprAssignNode _ _ var _ c0 =>
      match var with
      | Some v =>
          let '(st, _) := eval c0 st (Storage (lv_id v)) in
          (st, result)
      | None => writeRef st result (vsplat 0%float)
      end

  (* SeExprVecNode::eval *)
  | SeExprVecNode t c0 c1 c2 =>
      if _isVec n then
        let '(st, v) := eval c0 st fresh in
        let '(st, result) := setLane platform st result 0 (lane0 (readRef platform st v)) in
        let '(st, v) := eval c1 st v in
        let '(st, result) := setLane platform st result 1 (lane0 (readRef platform st v)) in
        let '(st, v) := eval c2 st v in
        setLane platform st result 2 (lane0 (readRef platform st v))
      else eval c0 st result

  (* SeExprCondNode::eval *)
  | SeExprCondNode t c0 c1 c2 =>
      let '(st, v) := eval c0 st fresh in
      if truthy (lane0 (readRef platform st v)) then
        let '(st, result) := eval c1 st result in
        if _isVec n && negb (isVec c1) then broadcastRef platform st result
        else (st, result)
      else
        let '(st, result) := eval c2 st result in
        if _isVec n && negb (isVec c2) then broadcastRef platform st result
        else (st, result)

  (* SeExprAndNode::eval *)
  | SeExprAndNode _ c0 c1 =>
      let '(st, a) := eval c0 st fresh in
      if negb (truthy (lane0 (readRef platform st a))) then
        setLane platform st result 0 0%float
      else
        let '(st, b) := eval c1 st fresh in
        setLane platform st result 0
          (of_bool (negb (lane0 (readRef platform st b) =? 0)%float))

  (* SeExprOrNode::eval *)
  | SeExprOrNode _ c0 c1 =>
      let '(st, a) := eval c0 st fresh in
      if truthy (lane0 (readRef platform st a)) then
        setLane platform st result 0 1%float
      else
        let '(st, b) := eval c1 st fresh in
        setLane platform st result 0
          (of_bool (negb (lane0 (readRef platform st b) =? 0)%float))

  (* SeExprSubscriptNode::eval *)
  | SeExprSubscriptNode _ c0 c1 =>
      let '(st, a) := eval c0 st fresh in
      let '(st, b) := eval c1 st fresh in
      let a := readRef platform st a in
      let b := readRef platform st b in
      let index := int_of_double platform (lane0 b) in
      setLane platform st result 0 (subscript (isVec c0) a index)

  (* SeExprNegNode::eval, SeExprInvertNode::eval, SeExprNotNode::eval *)
  | SeExprUnaryNode op t c0 =>
      let '(st, a) := eval c0 st fresh in
      let a := readRef platform st a in
      let '(st, result) := setLane platform st result 0 (unary op (lane0 a)) in
      if _isVec n then
        let '(st, result) := setLane platform st result 1 (unary op (lane1 a)) in
        setLane platform st result 2 (unary op (lane2 a))
      else (st, result)

  (* SeExprEqNode::eval ... SeExprGeNode::eval *)
  | SeExprCompareNode op _ c0 c1 =>
      let '(st, a) := eval c0 st fresh in
      let '(st, b) := eval c1 st fresh in
      let a := readRef platform st a in
      let b := readRef platform st b in
      match op with
      | EqOp | NeOp =>
          let a := if negb (isVec c0) then broadcast a else a in
          let b := if negb (isVec c1) then broadcast b else b in
          setLane platform st result 0 (of_bool (compare op a b))
      | _ => setLane platform st result 0 (of_bool (compare op a b))
      end

  (* SeExprAddNode::eval ... SeExprExpNode::eval *)
  | SeExprArithNode op t c0 c1 =>
      let '(st, a) := eval c0 st fresh in
      let '(st, b) := eval c1 st fresh in
      let a := readRef platform st a in
      let b := readRef platform st b in
      if negb (_isVec n) then
        setLane platform st result 0 (arith platform op (lane0 a) (lane0 b))
      else
        let a := if negb (isVec c0) then broadcast a else a in
        let b := if negb (isVec c1) then broadcast b else b in
        writeRef st result (vzip (arith platform op) a b)

  (* SeExprVarNode::eval *)
  | SeExprVarNode _ name var =>
      match var with
      | Some (LocalVarRef r) => evalLocalVar r st result
      | Some (ExternalVarRef h _) => evalExternalVar h name st result
      | None => writeRef st result (vsplat 0%float)
      end

  (* SeExprNumNode::eval *)
  | SeExprNumNode _ v => evalNum v st result

  (* SeExprStrNode::eval *)
  | SeExprStrNode _ _ => evalStr st result

  (* SeExprFuncNode::eval *)
  | SeExprFuncNode t name func nargs children =>
      match func with
      | None => writeRef st result (vsplat 0%float)
      | Some f =>
          match isFUNCX f with
          | Some h =>
              funcx_eval host h name nargs (typeIsVec t) children
                (map eval children) st result
          | None =>
              let applyScalarToVec := _isVec n && isScalar f in
              let niter := if applyScalarToVec then 3 else 1 in
              let '(st, a) := evalArgs platform eval children nargs st in
              writeRef st result
                (callLoop platform f nargs a 0 niter (readRef platform st result))
          end
      end
  end.
End Eval.

(** ** Predicates of the prep invariant *)

(** The children of a node, in source order. *)
Definition children (n : SeExprNode) : list SeExprNode :=
  match n with
  | SeExprPlainNode _ cs | SeExprFuncNode _ _ _ _ cs => cs
  | SeExprBlockNode _ c0 c1 | SeExprAndNode _ c0 c1 | SeExprOrNode _ c0 c1
  | SeExprSubscriptNode _ c0 c1 | SeExprCompareNode _ _ c0 c1
  | SeExprArithNode _ _ c0 c1 => [c0; c1]
  | SeExprIfThenElseNode _ c0 c1 c2 | SeExprVecNode _ c0 c1 c2
  | SeExprCondNode _ c0 c1 c2 => [c0; c1; c2]
  | SeExprAssignNode _ _ _ _ c0 | SeExprUnaryNode _ _ c0 => [c0]
  | SeExprVarNode _ _ _ | SeExprNumNode _ _ | SeExprStrNode _ _ => []
  end.

Section Defined.
Variable host : PrepHost.

(** The expression or the registry has a function of that name. *)
Definition resolves (name : string) : bool :=
  bool_decide (is_Some (resolveFunc host name) \/ is_Some (lookup host name)).

(** Every function called in the tree has a definition. *)
Fixpoint allDefined (n : SeExprNode) : bool :=
  match n with
  | SeExprFuncNode _ name _ _ cs => resolves name && forallb allDefined cs
  | SeExprPlainNode _ cs => forallb allDefined cs
  | SeExprBlockNode _ c0 c1 | SeExprAndNode _ c0 c1 | SeExprOrNode _ c0 c1
  | SeExprSubscriptNode _ c0 c1 | SeExprCompareNode _ _ c0 c1
  | SeExprArithNode _ _ c0 c1 => allDefined c0 && allDefined c1
  | SeExprIfThenElseNode _ c0 c1 c2 | SeExprVecNode _ c0 c1 c2
  | SeExprCondNode _ c0 c1 c2 => allDefined c0 && allDefined c1 && allDefined c2
  | SeExprAssignNode _ _ _ _ c0 | SeExprUnaryNode _ _ c0 => allDefined c0
  | SeExprVarNode _ _ _ | SeExprNumNode _ _ | SeExprStrNode _ _ => true
  end.
End Defined.

(** An error has been recorded. *)
Definition failed (ex : SeExpression) : Prop := errors ex <> [].

(** Every reference the environment binds has a valid type. *)
Definition envValid (env : SeExprVarEnv) : Prop :=
  Forall (map_Forall (fun _ r => isValid (lv_type r) = true)) (frame env :: parents env).

(** As long as no error has been recorded, the environment binds valid
    types only. *)
Definition sound (env : SeExprVarEnv) (ex : SeExpression) : Prop :=
  errors ex = [] -> envValid env.

(** What a call of [prep] guarantees when it starts from [env] and [ex]:
    the enclosing scopes are untouched, the environment stays [sound],
    recorded errors stay recorded, an invalid returned type comes with a
    recorded error, and (when every function called has a definition) a
    valid returned type comes with no new error. *)
Record prepOk (defined : bool) (env : SeExprVarEnv) (ex : SeExpression)
    (r : PrepResult) : Prop := mkPrepOk {
  ok_parents : parents r.1.2 = parents env;
  ok_sound : sound r.1.2 r.2;
  ok_mono : failed ex -> failed r.2;
  ok_invalid : isValid r.1.1.2 = false -> failed r.2;
  ok_valid : defined = true -> isValid r.1.1.2 = true -> errors r.2 = errors ex
}.

(** [prep] of the node [n] keeps its guarantees from every sound start. *)
Definition prepSound (host : PrepHost) (n : SeExprNode) : Prop :=
  forall wanted env ex, sound env ex ->
    prepOk (allDefined host n) env ex (prep host n wanted env ex).

(** ** A reference platform and hosts, for running the scenarios *)

Module Reference.

(** [int(x)]: truncation toward zero; where the value does not fit an
    [int] the conversion is undefined in C++, and the reference platform
    answers [INT_MIN] as x86-64 does. *)
Definition int_of_double (x : double) : Z :=
  match truncate x with
  | Some z => if ((-2147483648 <=? z) && (z <=? 2147483647))%Z then z else (-2147483648)%Z
  | None => (-2147483648)%Z
  end.

(** [floor(x)]: the largest whole number not above [x]; zeros, infinities,
    NaN and doubles without a fractional part are returned unchanged. *)
Definition floor (x : double) : double :=
  match Prim2SF x with
  | S754_finite s m e =>
      if (0 <=? e)%Z then x
      else
        let down := Z.shiftl (Z.pos m) e in
        if s then
          let up := if (Z.shiftl down (- e) =? Z.pos m)%Z then down else (down + 1)%Z in
          (- of_uint63 (Uint63.of_Z up))%float
        else of_uint63 (Uint63.of_Z down)
  | _ => x
  end.

(** [pow(a, b)] restricted to what the scenarios need: exponents that are
    whole numbers from 0 to 64, by repeated multiplication; NaN
    elsewhere. *)
Definition pow (a b : double) : double :=
  match truncate b with
  | Some z =>
      if ((0 <=? z) && (z <=? 64))%Z && (of_uint63 (Uint63.of_Z z) =? b)%float
      then Nat.iter (Z.to_nat z) (fun r => (r * a)%float) 1%float
      else nan
  | None => nan
  end.

Definition platform : Platform :=
  mkPlatform floor pow int_of_double (mkSeVec3d nan nan nan).

(** The host of the scenarios: nothing is resolved and the registry is
    empty. *)
Definition emptyHost : PrepHost :=
  mkPrepHost (fun _ => None) (fun _ => None) (fun _ => None) (fun _ => true)
    (fun _ children _ _ env ex => (children, ErrorType, env, ex)).

Definition emptyEvalHost : EvalHost unit :=
  mkEvalHost (fun _ _ _ v => v) (fun _ _ _ _ _ _ st result => (st, result)).

Definition emptyState : EvalState unit := mkEvalState ∅ tt.

(** A host with one [FUNCX] function, [tick], that takes no argument,
    counts its calls in the host's world and returns 1; it does not declare
    itself thread safe. *)
Definition tick : SeExprFunc := mkFunc FP1Type 0 0 true (FUNCX 0).

Definition tickHost : PrepHost :=
  mkPrepHost (fun _ => None)
    (fun name => if String.eqb name "tick" then Some tick else None)
    (fun _ => None) (fun _ => false)
    (fun _ children _ _ env ex => (children, FP1Type, env, ex)).

Definition tickEvalHost : EvalHost nat :=
  mkEvalHost (fun _ _ _ v => v)
    (fun _ _ _ _ _ _ st result =>
       setLane platform (mkEvalState (locals st) (S (world st))) result 0 1%float).

(** Nodes as the parser leaves them, before [prep]. *)
Definition num (v : double) : SeExprNode := SeExprNumNode ErrorType v.
Definition var (name : string) : SeExprNode := SeExprVarNode ErrorType name None.
Definition assign (name : string) (e : SeExprNode) : SeExprNode :=
  SeExprAssignNode ErrorType name None ErrorType e.
Definition vec (a b c : SeExprNode) : SeExprNode := SeExprVecNode ErrorType a b c.
Definition call (name : string) (args : list SeExprNode) : SeExprNode :=
  SeExprFuncNode ErrorType name None 0 args.

(** Prep the root with an empty environment and no error recorded and, when
    no error was collected, evaluate the prepped tree into an uninitialised
    vector. *)
Definition run (root : SeExprNode) (wanted : SeExprType)
  : SeExprType * list string * option SeVec3d :=
  let '(root, t, _, ex) := prep emptyHost root wanted emptyEnv emptyExpr in
  let '(st, result) := eval platform emptyEvalHost root emptyState (fresh platform) in
  (t, errors ex,
   match errors ex with
   | [] => Some (readRef platform st result)
   | _ => None
   end).
End Reference.


(** ** Further members of the node classes *)

(** [SeExprVecNode::value()], on the three components of the vector
    literal: the three literals when every component is a [SeExprNumNode]
    (whose [value()] is its literal, as the spec has it), and
    [SeVec3d(0.0)] otherwise. *)
Definition value (c0 c1 c2 : SeExprNode) : SeVec3d :=
  match c0 with
  | SeExprNumNode _ first =>
      match c1 with
      | SeExprNumNode _ second =>
          match c2 with
          | SeExprNumNode _ third => mkSeVec3d first second third
          | _ => vsplat 0%float
          end
      | _ => vsplat 0%float
      end
  | _ => vsplat 0%float
  end.

(** [SeExprFuncNode::isStrArg(n)], for an index that is not negative:
    [n < _nargs && dynamic_cast<const SeExprStrNode*>(child(n)) != 0].  With
    [n < _nargs] and no child [n] the access is out of range, which has no
    defined result ([None]). *)
Definition isStrArg (node : SeExprNode) (n : nat) : option bool :=
  match node with
  | SeExprFuncNode _ _ _ nargs children =>
      if (n <? nargs)%nat then
        match children !! n with
        | Some (SeExprStrNode _ _) => Some true
        | Some _ => Some false
        | None => None
        end
      else Some false
  | _ => None
  end.

(** [SeExprFuncNode::getStrArg(n)], for an index that is not negative: the
    string of child [n] when [n < _nargs], the empty string otherwise.  The
    [static_cast] of a child that is no [SeExprStrNode] has no defined result
    ([None]). *)
Definition getStrArg (node : SeExprNode) (n : nat) : option string :=
  match node with
  | SeExprFuncNode _ _ _ nargs children =>
      if (n <? nargs)%nat then
        match children !! n with
        | Some (SeExprStrNode _ str) => Some str
        | _ => None
        end
      else Some ""
  | _ => None
  end.

Section EvalArg.
Context {W : Type}.
Variable platform : Platform.
Variable host : EvalHost W.

(** [SeExprFuncNode::evalArg(n)]: child [n] evaluated into a local vector
    and widened when it is a scalar; no defined result ([None]) without a
    child [n]. *)
Definition evalArg (node : SeExprNode) (n : nat) (st : EvalState W)
  : option (EvalState W * SeVec3d) :=
  match node with
  | SeExprFuncNode _ _ _ _ children =>
      match children !! n with
      | Some child =>
          let '(st, arg) := eval platform host child st (fresh platform) in
          let arg := readRef platform st arg in
          Some (st, if negb (isVec child) then broadcast arg else arg)
      | None => None
      end
  | _ => None
  end.
End EvalArg.

(** ** Predicates of the further properties *)

(** No function the host hands out is a [FUNCX] callback. *)
Definition plainHost (host : PrepHost) : Prop :=
  forall name f,
    resolveFunc host name = Some f \/ lookup host name = Some f -> isFUNCX f = None.

(** The node without the members [prep] writes: every [_type], the
    [_assignedType] of an assignment, the [_var] of a variable node, the
    [_func] and [_nargs] of a call.  Names, literals, operators, the [_var]
    of an assignment and the children, in order, stay. *)
Fixpoint structure (n : SeExprNode) : SeExprNode :=
  match n with
  | SeExprPlainNode _ cs => SeExprPlainNode ErrorType (map structure cs)
  | SeExprBlockNode _ c0 c1 => SeExprBlockNode ErrorType (structure c0) (structure c1)
  | SeExprIfThenElseNode _ c0 c1 c2 =>
      SeExprIfThenElseNode ErrorType (structure c0) (structure c1) (structure c2)
  | SeExprAssignNode _ name var _ c0 =>
      SeExprAssignNode ErrorType name var ErrorType (structure c0)
  | SeExprVecNode _ c0 c1 c2 =>
      SeExprVecNode ErrorType (structure c0) (structure c1) (structure c2)
  | SeExprCondNode _ c0 c1 c2 =>
      SeExprCondNode ErrorType (structure c0) (structure c1) (structure c2)
  | SeExprAndNode _ c0 c1 => SeExprAndNode ErrorType (structure c0) (structure c1)
  | SeExprOrNode _ c0 c1 => SeExprOrNode ErrorType (structure c0) (structure c1)
  | SeExprSubscriptNode _ c0 c1 =>
      SeExprSubscriptNode ErrorType (structure c0) (structure c1)
  | SeExprUnaryNode op _ c0 => SeExprUnaryNode op ErrorType (structure c0)
  | SeExprCompareNode op _ c0 c1 =>
      SeExprCompareNode op ErrorType (structure c0) (structure c1)
  | SeExprArithNode op _ c0 c1 =>
      SeExprArithNode op ErrorType (structure c0) (structure c1)
  | SeExprVarNode _ name _ => SeExprVarNode ErrorType name None
  | SeExprNumNode _ v => SeExprNumNode ErrorType v
  | SeExprStrNode _ str => SeExprStrNode ErrorType str
  | SeExprFuncNode _ name _ _ cs => SeExprFuncNode ErrorType name None 0 (map structure cs)
  end.

(** No assignment in the tree holds a variable reference and no call in it
    is bound to a [FUNCX] callback: the two places where [eval] writes
    anything but its result vector. *)
Fixpoint readOnly (n : SeExprNode) : bool :=
  match n with
  | SeExprPlainNode _ cs => forallb readOnly cs
  | SeExprAssignNode _ _ var _ c0 =>
      match var with
      | Some _ => false
      | None => readOnly c0
      end
  | SeExprFuncNode _ _ func _ cs =>
      match func with
      | Some f =>
          match isFUNCX f with
          | Some _ => false
          | None => forallb readOnly cs
          end
      | None => forallb readOnly cs
      end
  | SeExprBlockNode _ c0 c1 | SeExprAndNode _ c0 c1 | SeExprOrNode _ c0 c1
  | SeExprSubscriptNode _ c0 c1 | SeExprCompareNode _ _ c0 c1
  | SeExprArithNode _ _ c0 c1 => readOnly c0 && readOnly c1
  | SeExprIfThenElseNode _ c0 c1 c2 | SeExprVecNode _ c0 c1 c2
  | SeExprCondNode _ c0 c1 c2 => readOnly c0 && readOnly c1 && readOnly c2
  | SeExprUnaryNode _ _ c0 => readOnly c0
  | SeExprVarNode _ _ _ | SeExprNumNode _ _ | SeExprStrNode _ _ => true
  end.

(** The expression's state [ex'] is [ex] with messages appended and
    references allocated, and nothing else changed. *)
Definition extends (ex ex' : SeExpression) : Prop :=
  (exists more, errors ex' = errors ex ++ more)%list
  /\ threadUnsafe ex' = threadUnsafe ex
  /\ threadUnsafeFunctionCalls ex' = threadUnsafeFunctionCalls ex
  /\ (allocated ex <= allocated ex')%nat.

(** The node classes whose [prep] does not read its [wanted] parameter. *)
Definition ignoresWanted (n : SeExprNode) : bool :=
  match n with
  | SeExprBlockNode _ _ _ | SeExprCondNode _ _ _ _ | SeExprUnaryNode _ _ _
  | SeExprFuncNode _ _ _ _ _ => false
  | _ => true
  end.

(** The node classes whose [eval] assigns to [result[0]] and to nothing
    else of [result]; the unary and the arithmetic classes are among them
    where the node's [_isVec] is 0. *)
Definition scalarResult (n : SeExprNode) : bool :=
  match n with
  | SeExprAndNode _ _ _ | SeExprOrNode _ _ _ | SeExprSubscriptNode _ _ _
  | SeExprCompareNode _ _ _ _ | SeExprNumNode _ _ => true
  | SeExprUnaryNode _ _ _ | SeExprArithNode _ _ _ _ => negb (_isVec n)
  | _ => false
  end.

(** [prep] of the node [n] keeps what an expression state [ex0] already
    held: started from an extension of [ex0] it ends in one. *)
Definition appends (host : PrepHost) (n : SeExprNode) : Prop :=
  forall wanted env ex ex0,
    extends ex0 ex -> extends ex0 (prep host n wanted env ex).2.

(** [prep] of the node [n] returns a node of the same [structure]. *)
Definition keepsStructure (host : PrepHost) (n : SeExprNode) : Prop :=
  forall wanted env ex, structure (prep host n wanted env ex).1.1.1 = structure n.

(** The environment [env'] has the enclosing scopes of [env], and its
    innermost frame binds every name the innermost frame of [env] binds. *)
Definition grows (env env' : SeExprVarEnv) : Prop :=
  parents env' = parents env
  /\ forall name, is_Some (frame env !! name) -> is_Some (frame env' !! name).

(** [prep] of the node [n], started from an environment that grew out of
    [env0], ends in one. *)
Definition keepsNames (host : PrepHost) (n : SeExprNode) : Prop :=
  forall wanted env ex env0,
    grows env0 env -> grows env0 (prep host n wanted env ex).1.2.

(** [prep] of a [readOnly] node [n] returns a [readOnly] node. *)
Definition staysReadOnly (host : PrepHost) (n : SeExprNode) : Prop :=
  readOnly n = true ->
  forall wanted env ex, readOnly (prep host n wanted env ex).1.1.1 = true.

(** [eval] of a [readOnly] node [n] into a vector of the caller returns
    the state it was given. *)
Definition leavesState {W : Type} (platform : Platform) (host : EvalHost W)
    (n : SeExprNode) : Prop :=
  readOnly n = true ->
  forall st r, exists r', eval platform host n st (Temp r) = (st, Temp r').

(** ** A host with a variable and two functions *)

Module Library.

(** [max(a, b)] as the comparison of doubles gives it. *)
Definition max (a b : double) : double := if (a <? b)%float then b else a.

Definition sqrtFunc : SeExprFunc := mkFunc FP1Type 1 1 true (FUNC1 PrimFloat.sqrt).
Definition maxFunc : SeExprFunc := mkFunc FP1Type 2 (-1) true (FUNC2 max).

(** The expression resolves the variable [P], a 3-wide vector the host
    keeps in its world; the registry has [sqrt], of one argument, and [max],
    of two arguments or more. *)
Definition host : PrepHost :=
  mkPrepHost
    (fun name => if String.eqb name "P" then Some (ExternalVarRef 0 (FPNType 3)) else None)
    (fun _ => None)
    (fun name =>
       if String.eqb name "sqrt" then Some sqrtFunc
       else if String.eqb name "max" then Some maxFunc
       else None)
    (fun _ => true)
    (fun _ children _ _ env ex => (children, ErrorType, env, ex)).

Definition evalHost : EvalHost SeVec3d :=
  mkEvalHost (fun _ _ world _ => world) (fun _ _ _ _ _ _ st result => (st, result)).

(** [$P] stands at (4, 9, 16). *)
Definition state : EvalState SeVec3d := mkEvalState ∅ (mkSeVec3d 4 9 16).
End Library.

(** * Properties *)

(** ** Scenarios of the specification, run on the reference platform *)

Example scenario_S1 :
  Reference.run (SeExprAddNode ErrorType (Reference.num 1) (Reference.num 2)) AnyType
  = (FP1Type, [], Some (mkSeVec3d 3 nan nan)).
Proof. reflexivity. Qed.

(** Scenario S2, [[1,2,3] * 2]: prep types the product [FPN(3)].  No node
    has its [_isVec] set, so the vector literal evaluates its first
    component only and the product is taken in lane 0 only: lanes 1 and 2
    of the result are not written. *)
Example scenario_S2 :
  Reference.run
    (SeExprMulNode ErrorType
       (Reference.vec (Reference.num 1) (Reference.num 2) (Reference.num 3))
       (Reference.num 2)) AnyType
  = (FPNType 3, [], Some (mkSeVec3d 2 nan nan)).
Proof. reflexivity. Qed.

(** Scenario S3, [[1,2,3][1]]: the literal is a vector by its type, so the
    subscript reads its lane 1, which the literal's [eval] never wrote. *)
Example scenario_S3 :
  Reference.run
    (SeExprSubscriptNode ErrorType
       (Reference.vec (Reference.num 1) (Reference.num 2) (Reference.num 3))
       (Reference.num 1)) AnyType
  = (FP1Type, [], Some (indeterminate Reference.platform)).
Proof. reflexivity. Qed.

(** Scenario S4, [if (1) { $x = 5; } else { $x = 7; } $x]: prep succeeds
    and [$x] resolves to the reference the then branch created.  The
    assignments hold no variable reference after [prep], so evaluation
    stores nothing and [$x] reads storage nobody wrote. *)
Example scenario_S4 :
  let root :=
    SeExprBlockNode ErrorType
      (SeExprIfThenElseNode ErrorType (Reference.num 1)
         (Reference.assign "x" (Reference.num 5))
         (Reference.assign "x" (Reference.num 7)))
      (Reference.var "x") in
  let '(root', t, env, ex) := prep Reference.emptyHost root AnyType emptyEnv emptyExpr in
  t = FP1Type /\ errors ex = []
  /\ find env "x" = Some (mkLocalVarRef 0 FP1Type)
  /\ Reference.run root AnyType = (FP1Type, [], Some (indeterminate Reference.platform)).
Proof. repeat split; reflexivity. Qed.

Example scenario_S5 :
  Reference.run
    (SeExprBlockNode ErrorType
       (SeExprIfThenElseNode ErrorType (Reference.num 1)
          (Reference.assign "x" (Reference.num 5))
          (Reference.assign "y" (Reference.num 7)))
       (Reference.var "x")) AnyType
  = (ErrorType, [ifMismatchError; noVariableError "x"], None).
Proof. reflexivity. Qed.

Example scenario_S6 :
  Reference.run (SeExprAddNode ErrorType (Reference.var "undefined") (Reference.num 1))
    AnyType
  = (ErrorType, ["No variable named $undefined"], None).
Proof. reflexivity. Qed.

Example scenario_S7 :
  Reference.run (SeExprModNode ErrorType (Reference.num 7) (Reference.num 0)) AnyType
  = (FP1Type, [], Some (mkSeVec3d 0 nan nan)).
Proof. reflexivity. Qed.

Example scenario_S8 :
  Reference.run
    (SeExprAndNode ErrorType
       (SeExprLtNode ErrorType (Reference.num 1) (Reference.num 2))
       (SeExprGtNode ErrorType (Reference.num 3) (Reference.num 2))) AnyType
  = (FP1Type, [], Some (mkSeVec3d 1 nan nan)).
Proof. reflexivity. Qed.

(** A call of the [FUNCX] function [tick] preps to the function's return
    type and marks the expression thread-unsafe. *)
Example tick_prep :
  prep Reference.tickHost (Reference.call "tick" []) AnyType emptyEnv emptyExpr
  = (SeExprFuncNode FP1Type "tick" (Some Reference.tick) 0 [], FP1Type, emptyEnv,
     mkExpr [] true ["tick"] 0).
Proof. reflexivity. Qed.

(** ** Ternary conditional *)

(** C1, at the failing input [1 ? 2 : 3]: the condition is prepped with
    [FP1] and both branches with the caller's wanted type; both branches
    produce [FP1], which is valid and is what the caller wants ([FP1], or
    anything), and yet [prep] records one "Expected ..." message per branch
    and returns [Error] instead of the then-branch's type. *)
Theorem SeExprCondNode_prep_rejects_wanted_branches :
  let cond := SeExprCondNode ErrorType (Reference.num 1) (Reference.num 2) (Reference.num 3) in
  prep Reference.emptyHost cond FP1Type emptyEnv emptyExpr
  = (SeExprCondNode ErrorType (SeExprNumNode FP1Type 1) (SeExprNumNode FP1Type 2)
       (SeExprNumNode FP1Type 3),
     ErrorType, emptyEnv,
     mkExpr
       ["Expected FP1 type from then branch of ternary conditional expression but found FP1";
        "Expected FP1 type from else branch of ternary conditional expression but found FP1"]
       false [] 0)
  /\ (let '(_, t, _, ex) := prep Reference.emptyHost cond AnyType emptyEnv emptyExpr in
      t = ErrorType /\ length (errors ex) = 2)
  /\ isa FP1Type FP1Type = true /\ isa FP1Type AnyType = true.
Proof. repeat split; reflexivity. Qed.

(** ** Function call without a definition *)

(** C8, at the failing input [foo()] with nothing resolved and an empty
    registry: [prep] records "Function foo has no definition", and the call
    of [SeExprNode::prep] that follows overwrites the node's type with
    [None]; the root's type is valid while the error list is not empty. *)
Theorem SeExprFuncNode_prep_undefined_returns_valid :
  prep Reference.emptyHost (Reference.call "foo" []) AnyType emptyEnv emptyExpr
  = (SeExprFuncNode NoneType "foo" None 0 [], NoneType, emptyEnv,
     mkExpr ["Function foo has no definition"] false [] 0)
  /\ isValid NoneType = true
  /\ (let '(_, ty, _, ex) :=
        prep Reference.emptyHost (Reference.call "foo" []) AnyType emptyEnv emptyExpr in
      ~ (ty = ErrorType <-> errors ex <> [])).
Proof.
  split; [reflexivity |]. split; [reflexivity |].
  simpl. intros [_ H]. discriminate H. discriminate.
Qed.

(** ** Evaluation of the operators *)

Section EvalProperties.
Context {W : Type}.
Variable platform : Platform.
Variable host : EvalHost W.

Local Abbreviation eval := (eval platform host).
Local Abbreviation fresh := (fresh platform).
Local Abbreviation readRef := (readRef platform).

(** Writing a vector through a reference and reading it back. *)
Lemma readRef_writeRef (st : EvalState W) (result : ResultRef) (v : SeVec3d) :
  let '(st', result') := writeRef st result v in readRef st' result' = v.
Proof.
  destruct result as [u | id]; simpl; [reflexivity |].
  unfold readLocal; simpl. by rewrite lookup_insert_eq.
Qed.

(** [result[i] = x] changes lane [i] only. *)
Lemma readRef_setLane (st : EvalState W) (result : ResultRef) (i : nat) (x : double) :
  let '(st', result') := setLane platform st result i x in
  readRef st' result' = vset (readRef st result) i x.
Proof. unfold setLane. apply readRef_writeRef. Qed.

(** The six arithmetic operators on a node of any type.  With [a] and [b]
    the vectors the two operands evaluate to, the node stores the operator
    applied to [a0] and [b0] into lane 0 of its result and writes no other
    lane: the lane-by-lane branch of each [eval] is guarded by the node's
    [_isVec], which is 0. *)
Lemma arithmetic_eval_lane_zero
    (op : ArithOp) (t : SeExprType) (c0 c1 : SeExprNode) (st st1 st2 : EvalState W)
    (result ra rb : ResultRef) :
  eval c0 st fresh = (st1, ra) ->
  eval c1 st1 fresh = (st2, rb) ->
  eval (SeExprArithNode op t c0 c1) st result
  = setLane platform st2 result 0
      (arith platform op (lane0 (readRef st2 ra)) (lane0 (readRef st2 rb))).
Proof. intros H0 H1. simpl. rewrite H0, H1. reflexivity. Qed.

(** C3: the modulo operator.  With [a] and [b] the vectors the two
    operands evaluate to, a [Mod] node stores into lane 0 of its result the
    floor-mod [a0 - floor(a0/b0)*b0] when [b0] is nonzero and 0 when
    [b0 == 0].  It does so whatever its type is, a vector type included,
    and writes no other lane: lanes 1 and 2 of the result keep what they
    held and are not the floor-mod of lanes 1 and 2 of the operands. *)
Theorem SeExprModNode_eval_floor_mod
    (t : SeExprType) (c0 c1 : SeExprNode) (st st1 st2 : EvalState W)
    (result ra rb : ResultRef) :
  eval c0 st fresh = (st1, ra) ->
  eval c1 st1 fresh = (st2, rb) ->
  let floorMod (x y : double) :=
    if (y =? 0)%float then 0%float else (x - floor platform (x / y) * y)%float in
  let a := readRef st2 ra in
  let b := readRef st2 rb in
  eval (SeExprModNode t c0 c1) st result
  = setLane platform st2 result 0 (floorMod (lane0 a) (lane0 b))
  /\ (let '(st', result') := eval (SeExprModNode t c0 c1) st result in
      lane1 (readRef st' result') = lane1 (readRef st2 result)
      /\ lane2 (readRef st' result') = lane2 (readRef st2 result)).
Proof.
  intros H0 H1 floorMod a b.
  assert (He : eval (SeExprModNode t c0 c1) st result
               = setLane platform st2 result 0 (floorMod (lane0 a) (lane0 b)))
    by (simpl; rewrite H0, H1; reflexivity).
  split; [exact He |]. rewrite He.
  pose proof (readRef_setLane st2 result 0 (floorMod (lane0 a) (lane0 b))) as Hr.
  destruct (setLane platform st2 result 0 (floorMod (lane0 a) (lane0 b))) as [st' result'].
  rewrite Hr. split; reflexivity.
Qed.

(** The integer part [truncate] computes, on the exact value of the double:
    its magnitude is the magnitude of the double rounded down to a whole
    number, and its sign is not opposite to the double's. *)
Lemma truncate_spec (x : double) (i : Z) :
  truncate x = Some i ->
  match Prim2SF x with
  | S754_zero _ => i = 0%Z
  | S754_finite s m e =>
      (if s then (i <= 0)%Z else (0 <= i)%Z)
      /\ (if (0 <=? e)%Z then Z.abs i = (Z.pos m * 2 ^ e)%Z
          else (Z.abs i * 2 ^ (- e) <= Z.pos m < (Z.abs i + 1) * 2 ^ (- e))%Z)
  | _ => False
  end.
Proof.
  unfold truncate. destruct (Prim2SF x) as [s | s | | s m e]; try discriminate.
  - by intros [= <-].
  - intros [= <-].
    assert (Hz : (0 <= Z.shiftl (Z.pos m) e)%Z) by (apply Z.shiftl_nonneg; lia).
    assert (Habs : Z.abs (if s then (- Z.shiftl (Z.pos m) e)%Z else Z.shiftl (Z.pos m) e)
                   = Z.shiftl (Z.pos m) e) by (destruct s; lia).
    split; [destruct s; lia |]. rewrite Habs.
    destruct (0 <=? e)%Z eqn:He.
    + apply Z.leb_le in He. by rewrite Z.shiftl_mul_pow2.
    + apply Z.leb_gt in He. rewrite Z.shiftl_div_pow2 by lia.
      assert (Hp : (0 < 2 ^ (- e))%Z) by (apply Z.pow_pos_nonneg; lia).
      pose proof (Z.mul_div_le (Z.pos m) (2 ^ (- e)) Hp).
      pose proof (Z.mul_succ_div_gt (Z.pos m) (2 ^ (- e)) Hp).
      lia.
Qed.

(** C7: the subscript operator.  With [a] the vector the vector operand
    evaluates to and [i] the index operand's lane 0 truncated toward zero
    to an integer, as [int(b[0])] does on a platform that follows the C++
    standard, the node stores into lane 0 of its result: for a 3-wide
    operand, lane [i] of [a] when [i] is 0, 1 or 2 and 0 otherwise; for a
    scalar operand, lane 0 of [a] when [i] is 0, 1 or 2 and 0 otherwise. *)
Theorem SeExprSubscriptNode_eval_lane
    (t : SeExprType) (c0 c1 : SeExprNode) (st st1 st2 : EvalState W)
    (result ra rb : ResultRef) (i : Z) :
  truncates platform ->
  eval c0 st fresh = (st1, ra) ->
  eval c1 st1 fresh = (st2, rb) ->
  truncate (lane0 (readRef st2 rb)) = Some i ->
  fitsInt i ->
  let a := readRef st2 ra in
  let inRange := bool_decide (i = 0 \/ i = 1 \/ i = 2)%Z in
  eval (SeExprSubscriptNode t c0 c1) st result =
    setLane platform st2 result 0
      (if isVec c0 then (if inRange then vget a (Z.to_nat i) else 0%float)
       else (if inRange then lane0 a else 0%float)).
Proof.
  intros Hint H0 H1 Hi Hfits. simpl. rewrite H0, H1, (Hint _ _ Hi Hfits). f_equal.
  unfold subscript.
  destruct i as [|p|p]; [destruct (isVec c0); reflexivity | | ].
  - destruct p as [[q|q|]|[q|q|]|]; destruct (isVec c0); try reflexivity;
      rewrite bool_decide_eq_false_2; try reflexivity; lia.
  - rewrite bool_decide_eq_false_2 by lia. destruct (isVec c0); reflexivity.
Qed.

(** C4: short-circuit evaluation.  When the left operand [a] of [And]
    evaluates to zero, the node stores 0 into lane 0 of its result and the
    state is the one [a] left; when the left operand of [Or] evaluates to
    a nonzero value, the node stores 1 likewise.  In both cases the right
    operand is not evaluated: result and state are the same for every
    right operand. *)
Theorem logical_short_circuit
    (t : SeExprType) (a X : SeExprNode) (st st1 : EvalState W)
    (result ra : ResultRef) :
  eval a st fresh = (st1, ra) ->
  ((lane0 (readRef st1 ra) =? 0)%float = true ->
     eval (SeExprAndNode t a X) st result = setLane platform st1 result 0 0%float
     /\ forall t' X', eval (SeExprAndNode t' a X') st result
                      = eval (SeExprAndNode t a X) st result)
  /\ ((lane0 (readRef st1 ra) =? 0)%float = false ->
     eval (SeExprOrNode t a X) st result = setLane platform st1 result 0 1%float
     /\ forall t' X', eval (SeExprOrNode t' a X') st result
                      = eval (SeExprOrNode t a X) st result).
Proof.
  intros Ha. split; intros Hz; simpl; rewrite Ha; unfold truthy; rewrite Hz; simpl;
    (split; [reflexivity | intros; reflexivity]).
Qed.

(** When the left operand does not decide, the right operand is
    evaluated and its lane 0, compared with zero, is the result. *)
Lemma logical_right_operand
    (t : SeExprType) (a X : SeExprNode) (st st1 st2 : EvalState W)
    (result ra rb : ResultRef) :
  eval a st fresh = (st1, ra) ->
  eval X st1 fresh = (st2, rb) ->
  let b := of_bool (negb (lane0 (readRef st2 rb) =? 0)%float) in
  ((lane0 (readRef st1 ra) =? 0)%float = false ->
     eval (SeExprAndNode t a X) st result = setLane platform st2 result 0 b)
  /\ ((lane0 (readRef st1 ra) =? 0)%float = true ->
     eval (SeExprOrNode t a X) st result = setLane platform st2 result 0 b).
Proof.
  intros Ha Hb. split; intros Hz; simpl; rewrite Ha; unfold truthy; rewrite Hz; simpl;
    rewrite Hb; reflexivity.
Qed.

(** The two arms of [SeExprAssignNode::eval]: a node that holds a variable
    reference evaluates its right-hand side with the variable's storage as
    the output vector and leaves its own output vector untouched; a node
    that holds none does not evaluate the right-hand side and sets its
    output vector to zero.  No function of the file gives a node the
    reference, so the second arm is the one that runs. *)
Lemma SeExprAssignNode_eval_stores_or_zeroes
    (t at_ : SeExprType) (name : string) (var : option SeExprLocalVarRef)
    (c0 : SeExprNode) (st : EvalState W) (result : ResultRef) :
  (forall v st1 r1,
      var = Some v ->
      eval c0 st (Storage (lv_id v)) = (st1, r1) ->
      eval (SeExprAssignNode t name var at_ c0) st result = (st1, result))
  /\ (var = None ->
      eval (SeExprAssignNode t name var at_ c0) st result
      = writeRef st result (vsplat 0%float)
      /\ forall out, eval (SeExprAssignNode t name var at_ c0) st (Temp out)
                     = (st, Temp (vsplat 0%float))).
Proof.
  split.
  - intros v st1 r1 -> H. simpl. rewrite H. reflexivity.
  - intros ->. split; [reflexivity | intros; reflexivity].
Qed.

(** A literal assigned through a variable reference lands in lane 0 of the
    variable's storage; the other lanes keep what they held. *)
Lemma SeExprAssignNode_eval_literal
    (t at_ tn : SeExprType) (name : string) (v : SeExprLocalVarRef) (x : double)
    (st : EvalState W) (result : ResultRef) :
  let '(st', result') :=
    eval (SeExprAssignNode t name (Some v) at_ (SeExprNumNode tn x)) st result in
  readLocal platform st' (lv_id v) = vset (readLocal platform st (lv_id v)) 0 x
  /\ result' = result.
Proof.
  simpl. split; [| reflexivity].
  unfold readLocal at 1. simpl. by rewrite lookup_insert_eq.
Qed.
End EvalProperties.

(** ** The variable environment *)

Lemma find_add_eq (env : SeExprVarEnv) (name : string) (r : SeExprLocalVarRef) :
  find (add env name r) name = Some r.
Proof. unfold find, add. simpl. by rewrite lookup_insert_eq. Qed.

Lemma find_add_ne (env : SeExprVarEnv) (name other : string) (r : SeExprLocalVarRef) :
  name <> other -> find (add env name r) other = find env other.
Proof. intros Hne. unfold find, add. simpl. by rewrite lookup_insert_ne. Qed.

(** A name bound in a scope is found from a child scope that does not
    shadow it. *)
Lemma find_newScope (env : SeExprVarEnv) (name : string) :
  find (newScope env) name = find env name.
Proof. unfold find, newScope. simpl. by rewrite lookup_empty. Qed.

(** After [env.add(child)], a name declared in the child scope resolves to
    the child's reference, and every other name as before. *)
Lemma find_addEnv (env child : SeExprVarEnv) (name : string) :
  find (addEnv env child) name =
    match frame child !! name with
    | Some r => Some r
    | None => find env name
    end.
Proof.
  unfold find, addEnv. simpl.
  destruct (frame child !! name) as [r|] eqn:Hc.
  - by rewrite (lookup_union_Some_l _ _ _ _ Hc).
  - rewrite lookup_union_r by done. reflexivity.
Qed.

(** Two scopes of which one declares a name the other does not declare do
    not match. *)
Lemma changesMatch_missing (env a b : SeExprVarEnv) (name : string) :
  (is_Some (frame a !! name) /\ frame b !! name = None)
  \/ (frame a !! name = None /\ is_Some (frame b !! name)) ->
  changesMatch env a b = false.
Proof.
  intros H. unfold changesMatch. apply bool_decide_eq_false_2. intros Heq.
  assert (Hl : (lv_type <$> frame a) !! name = (lv_type <$> frame b) !! name)
    by (by rewrite Heq).
  rewrite !lookup_fmap in Hl.
  destruct H as [[[r Hr] Hn] | [Hn [r Hr]]]; rewrite Hr, Hn in Hl; discriminate.
Qed.

(** Matching scopes declare the same names with the same types. *)
Lemma changesMatch_types (env a b : SeExprVarEnv) (name : string) :
  changesMatch env a b = true ->
  lv_type <$> (frame a !! name) = lv_type <$> (frame b !! name).
Proof.
  unfold changesMatch. intros H%bool_decide_eq_true_1.
  rewrite <- !lookup_fmap. by rewrite H.
Qed.

(** ** The prep pass *)

Section PrepProperties.
Variable host : PrepHost.

Local Abbreviation prep := (prep host).

(** C6: the type of an arithmetic node.  With [firstType] and
    [secondType] the types the two operands prep to (each prepped with
    [Numeric]): if both are Numeric and [compatibleNum], the node's type is
    [FP1] when both are [FP1] and [FPN(3)] when at least one is [FPN(3)];
    if either is not Numeric, or the pair is not [compatibleNum], the
    node's type is [Error].  The returned type is the node's [_type]. *)
Theorem arithmetic_prep_type
    (op : ArithOp) (t wanted : SeExprType) (c0 c1 c0' c1' : SeExprNode)
    (env env1 env2 : SeExprVarEnv) (ex ex1 ex2 : SeExpression)
    (firstType secondType : SeExprType) :
  prep c0 NumericType env ex = (c0', firstType, env1, ex1) ->
  prep c1 NumericType env1
    (checkOperand firstType NumericType
       (operandError "first" (arithSym op) firstType) false ex1).2
  = (c1', secondType, env2, ex2) ->
  let '(n', ty, _, _) := prep (SeExprArithNode op t c0 c1) wanted env ex in
  n' = SeExprArithNode op ty c0' c1'
  /\ (isa firstType NumericType = true -> isa secondType NumericType = true ->
      compatibleNum firstType secondType = true ->
        (firstType = FP1Type /\ secondType = FP1Type -> ty = FP1Type)
        /\ (firstType = FPNType 3 \/ secondType = FPNType 3 -> ty = FPNType 3)
        /\ (ty = FP1Type \/ ty = FPNType 3))
  /\ (isa firstType NumericType = false \/ isa secondType NumericType = false
      \/ compatibleNum firstType secondType = false -> ty = ErrorType).
Proof.
  intros H0 H1. simpl. rewrite H0.
  destruct (checkOperand firstType NumericType _ false ex1) as [e1 exm] eqn:E1.
  simpl in H1. rewrite H1.
  destruct (checkOperand secondType NumericType _ e1 ex2) as [e2 exn] eqn:E2.
  unfold checkOperand in E1, E2.
  destruct firstType as [| |[|[|[|[|n]]]]| | | |];
    destruct secondType as [| |[|[|[|[|m]]]]| | | |];
    simpl in *; inversion E1; subst; inversion E2; subst; simpl;
    (split; [reflexivity |]); split; intros;
    repeat match goal with
           | H : _ \/ _ |- _ => destruct H
           | H : _ /\ _ |- _ => destruct H
           end;
    try discriminate; try congruence;
    repeat split; intros;
    repeat match goal with
           | H : _ \/ _ |- _ => destruct H
           | H : _ /\ _ |- _ => destruct H
           end;
    try discriminate; try congruence; auto.
Qed.
(** C5: the if statement and its scopes.  The then and else branches are
    prepped, with [Any], each in a fresh child scope of the environment the
    condition left; the returned type is valid only if [changesMatch] holds
    between the two branch scopes.  On match the additions of the then
    scope are merged into the environment, no message is recorded, and the
    type is [None] (unless the condition or a branch failed, which gives
    [Error]); on mismatch the environment is left as it was, "Types of
    variables do not match after if statement" is recorded, and the type is
    [Error].  Scopes of which one declares a name the other does not never
    match. *)
Theorem SeExprIfThenElseNode_prep_scopes
    (t wanted : SeExprType) (c0 c1 c2 c0' c1' c2' : SeExprNode)
    (env env0 thenEnv elseEnv : SeExprVarEnv) (ex ex0 ex1 ex2 : SeExpression)
    (condType thenType elseType : SeExprType) :
  prep c0 FP1Type env ex = (c0', condType, env0, ex0) ->
  let condCheck :=
    checkOperand condType FP1Type (ifConditionError condType) false ex0 in
  prep c1 AnyType (newScope env0) condCheck.2 = (c1', thenType, thenEnv, ex1) ->
  prep c2 AnyType (newScope env0) ex1 = (c2', elseType, elseEnv, ex2) ->
  let '(n', ty, env', ex') := prep (SeExprIfThenElseNode t c0 c1 c2) wanted env ex in
  let branchesFine := negb condCheck.1 && isValid thenType && isValid elseType in
  n' = SeExprIfThenElseNode ty c0' c1' c2'
  /\ (isValid ty = true -> changesMatch env0 thenEnv elseEnv = true)
  /\ (changesMatch env0 thenEnv elseEnv = true ->
      env' = addEnv env0 thenEnv /\ ex' = ex2
      /\ ty = (if branchesFine then NoneType else ErrorType))
  /\ (changesMatch env0 thenEnv elseEnv = false ->
      env' = env0 /\ ex' = addError ex2 ifMismatchError /\ ty = ErrorType)
  /\ (forall name,
        (is_Some (frame thenEnv !! name) /\ frame elseEnv !! name = None)
        \/ (frame thenEnv !! name = None /\ is_Some (frame elseEnv !! name)) ->
        ty = ErrorType /\ errors ex' = (errors ex2 ++ [ifMismatchError])%list).
Proof.
  intros H0 condCheck H1 H2. simpl. rewrite H0.
  fold condCheck. destruct condCheck as [e0 exc] eqn:Ec. simpl in H1. rewrite H1, H2.
  assert (Hmiss : forall name,
    (is_Some (frame thenEnv !! name) /\ frame elseEnv !! name = None)
    \/ (frame thenEnv !! name = None /\ is_Some (frame elseEnv !! name)) ->
    changesMatch env0 thenEnv elseEnv = false)
    by (intros name; apply changesMatch_missing).
  destruct (changesMatch env0 thenEnv elseEnv) eqn:Hm; simpl.
  - split; [reflexivity |]. split; [reflexivity |]. split.
    + intros _. repeat split.
      destruct e0, (isValid thenType), (isValid elseType); reflexivity.
    + split; [discriminate |]. intros name Hn. specialize (Hmiss name Hn). discriminate.
  - split; [reflexivity |]. split; [discriminate |]. split; [discriminate |].
    split; [intros _; repeat split |]. intros name _. split; reflexivity.
Qed.

(** C10: an assignment binds its name whatever the right-hand side preps
    to.  [prep] of an [Assign] node adds the name to the environment, bound
    to a new local variable reference that carries the type [ty] the
    right-hand side prepped to, valid or not, and records no message of its
    own; a [Var] node for that name prepped afterwards, in that scope or in
    a child scope of it, resolves to this reference, takes the type [ty]
    and records no message. *)
Theorem SeExprAssignNode_prep_binds_name
    (t at_ wanted ty : SeExprType) (name : string)
    (var : option SeExprLocalVarRef) (rhs rhs' : SeExprNode)
    (env env1 : SeExprVarEnv) (ex ex1 : SeExpression) :
  prep rhs AnyType env ex = (rhs', ty, env1, ex1) ->
  let ref := mkLocalVarRef (allocated ex1) ty in
  let '(n', tn, env', ex') := prep (SeExprAssignNode t name var at_ rhs) wanted env ex in
  n' = SeExprAssignNode tn name var ty rhs'
  /\ tn = (if isValid ty then NoneType else ErrorType)
  /\ env' = add env1 name ref
  /\ errors ex' = errors ex1
  /\ allocated ex' = S (allocated ex1)
  /\ find env' name = Some ref
  /\ forall scope tv v w exv,
       scope = env' \/ scope = newScope env' ->
       prep (SeExprVarNode tv name v) w scope exv
       = (SeExprVarNode ty name (Some (LocalVarRef ref)), ty, scope, exv).
Proof.
  intros H ref. simpl. rewrite H. simpl.
  split; [destruct (isValid ty); reflexivity |].
  split; [destruct (isValid ty); reflexivity |].
  split; [reflexivity |]. split; [reflexivity |]. split; [reflexivity |].
  split; [apply find_add_eq |].
  intros scope tv v w exv [-> | ->]; simpl.
  - rewrite find_add_eq. reflexivity.
  - rewrite find_newScope, find_add_eq. reflexivity.
Qed.

(** A name the environment does not bind and the host does not resolve is
    reported. *)
Lemma SeExprVarNode_prep_unresolved
    (tv w : SeExprType) (name : string) (v : option SeExprVarRef)
    (env : SeExprVarEnv) (ex : SeExpression) :
  find env name = None -> resolveVar host name = None ->
  prep (SeExprVarNode tv name v) w env ex
  = (SeExprVarNode ErrorType name None, ErrorType, env,
     addError ex (noVariableError name)).
Proof. intros Hf Hr. simpl. rewrite Hf. simpl. rewrite Hr. reflexivity. Qed.
(** What [SeExprCondNode::prep] computes: the node takes the then-branch's
    type exactly when the condition is a valid [FP1], both branches are
    valid, and neither branch's type [isa] the wanted type. *)
Lemma SeExprCondNode_prep_type
    (t wanted : SeExprType) (c0 c1 c2 c0' c1' c2' : SeExprNode)
    (env env0 env1 env2 : SeExprVarEnv) (ex ex0 ex1 ex2 : SeExpression)
    (condType thenType elseType : SeExprType) :
  prep c0 FP1Type env ex = (c0', condType, env0, ex0) ->
  prep c1 wanted env0
    (checkOperand condType FP1Type
       ("Expected FP1 type in condition of ternary conditional expression but found "
        +:+ toString condType) false ex0).2
  = (c1', thenType, env1, ex1) ->
  prep c2 wanted env1 ex1 = (c2', elseType, env2, ex2) ->
  let '(_, ty, _, _) := prep (SeExprCondNode t c0 c1 c2) wanted env ex in
  ty = if isValid condType && isa condType FP1Type
          && isValid thenType && isValid elseType
          && negb (isa thenType wanted) && negb (isa elseType wanted)
       then thenType else ErrorType.
Proof.
  intros H0 H1 H2. simpl. rewrite H0.
  destruct (checkOperand condType FP1Type _ false ex0) as [e0 exc] eqn:Ec.
  simpl in H1. rewrite H1, H2.
  unfold checkOperand in Ec.
  destruct (isValid condType), (isa condType FP1Type); simpl in Ec; inversion Ec; subst;
    destruct (isValid thenType), (isValid elseType), (isa thenType wanted),
      (isa elseType wanted); reflexivity.
Qed.

(** What [SeExprFuncNode::prep] computes for a name that neither the
    expression nor the registry resolves: the message is recorded, the
    children are prepped as [SeExprNode::prep] does, and the returned type is
    the one that call left, [None] when no child failed. *)
Lemma SeExprFuncNode_prep_undefined
    (t wanted : SeExprType) (name : string) (func : option SeExprFunc) (nargs : nat)
    (children children' : list SeExprNode) (error : bool)
    (env env' : SeExprVarEnv) (ex ex' : SeExpression) :
  resolveFunc host name = None -> lookup host name = None ->
  prepChildren prep children false env
    (addError ex ("Function " +:+ name +:+ " has no definition"))
  = (children', error, env', ex') ->
  prep (SeExprFuncNode t name func nargs children) wanted env ex
  = (let ty := if error then ErrorType else NoneType in
     (SeExprFuncNode ty name None nargs children', ty, env', ex')).
Proof.
  intros Hr Hl Hc. simpl. rewrite Hr, Hl, Hc. reflexivity.
Qed.

End PrepProperties.

(** [prep] returns the type it stores in the node. *)
Lemma prep_returns_type (host : PrepHost) (n : SeExprNode) (wanted : SeExprType)
    (env : SeExprVarEnv) (ex : SeExpression) :
  let '(n', ty, _, _) := prep host n wanted env ex in type n' = ty.
Proof.
  destruct n; simpl; repeat case_match; simplify_eq; reflexivity.
Qed.

(** ** From prep to eval *)

Section PrepThenEval.
Context {W : Type}.
Variable prepHost : PrepHost.
Variable platform : Platform.
Variable host : EvalHost W.

(** An assignment that holds no variable reference, from prep to eval.
    [prep] creates a reference and binds the name to it in the environment,
    but does not hand it to the node, whose [_var] stays null; the node then
    evaluates to zero without evaluating its right-hand side. *)
Lemma SeExprAssignNode_prep_drops_reference
    (t at_ wanted : SeExprType) (name : string) (rhs : SeExprNode)
    (env : SeExprVarEnv) (ex : SeExpression) :
  let '(node, _, env', _) :=
    prep prepHost (SeExprAssignNode t name None at_ rhs) wanted env ex in
  (exists t' at' rhs' id,
      node = SeExprAssignNode t' name None at' rhs'
      /\ find env' name = Some (mkLocalVarRef id at'))
  /\ forall st result,
       eval platform host node st result = writeRef st result (vsplat 0%float).
Proof.
  simpl. destruct (prep prepHost rhs AnyType env ex) as [[[rhs' at'] env1] ex1]. simpl.
  split; [| reflexivity].
  eexists _, at', rhs', (allocated ex1). split; [reflexivity |].
  unfold find, add. simpl. by rewrite lookup_insert_eq.
Qed.

(** C9: the broadcasting law.  For each arithmetic operator [op], an
    operand [s] that preps to a scalar ([FP1]) and an operand [v] that preps
    to a 3-wide vector ([FPN(3)]): the node [s op v] preps to [FPN(3)] and
    is a vector by its type, and yet its evaluation combines lane 0 of what
    [s] evaluates to with lane 0 of what [v] evaluates to, stores that into
    lane 0 of the result and leaves lanes 1 and 2 of the result as they
    were.  The scalar is not replicated and lanes 1 and 2 of [v] are not
    read. *)
Theorem arithmetic_broadcasting_lane_zero
    (op : ArithOp) (t wanted : SeExprType) (s v s' v' : SeExprNode)
    (env env1 env2 : SeExprVarEnv) (ex ex1 ex2 : SeExpression)
    (st st1 st2 : EvalState W) (result rs rv : ResultRef) :
  prep prepHost s NumericType env ex = (s', FP1Type, env1, ex1) ->
  prep prepHost v NumericType env1 ex1 = (v', FPNType 3, env2, ex2) ->
  eval platform host s' st (fresh platform) = (st1, rs) ->
  eval platform host v' st1 (fresh platform) = (st2, rv) ->
  let '(node, ty, _, _) := prep prepHost (SeExprArithNode op t s v) wanted env ex in
  let a := readRef platform st2 rs in
  let b := readRef platform st2 rv in
  ty = FPNType 3
  /\ isVec node = true
  /\ eval platform host node st result
     = setLane platform st2 result 0 (arith platform op (lane0 a) (lane0 b))
  /\ (let '(st', result') := eval platform host node st result in
      lane1 (readRef platform st' result') = lane1 (readRef platform st2 result)
      /\ lane2 (readRef platform st' result') = lane2 (readRef platform st2 result)).
Proof.
  intros Hs Hv Hes Hev.
  simpl. rewrite Hs. simpl. rewrite Hv. simpl. rewrite Hes, Hev.
  do 3 (split; [reflexivity |]).
  pose proof (readRef_setLane platform st2 result 0
                (arith platform op (lane0 (readRef platform st2 rs))
                   (lane0 (readRef platform st2 rv)))) as Hr.
  destruct (setLane platform st2 result 0 _) as [st' result'].
  rewrite Hr. split; reflexivity.
Qed.

(** The two programs of the law, [s op v] and [[s,s,s] op v], do evaluate
    alike for a literal [s]: the vector literal evaluates its first
    component only, and both products are taken in lane 0 only. *)
Lemma arithmetic_literal_vector_operand
    (op : ArithOp) (t tv ts : SeExprType) (x : double) (v : SeExprNode)
    (st : EvalState W) (result : ResultRef) :
  eval platform host (SeExprArithNode op t (SeExprNumNode ts x) v) st result
  = eval platform host
      (SeExprArithNode op t
         (SeExprVecNode tv (SeExprNumNode ts x) (SeExprNumNode ts x) (SeExprNumNode ts x))
         v) st result.
Proof. reflexivity. Qed.
End PrepThenEval.

(** C2, at the failing input [$x = 5] followed by [$x]: [prep] binds [x]
    to a new reference and the later [$x] resolves to it, but the
    assignment node is not given the reference.  Evaluated, the assignment
    sets its output vector to zero and leaves the state as it was: the
    right-hand side is not evaluated and nothing is stored; [$x] then reads
    what the storage of the reference held before, not 5. *)
Theorem SeExprAssignNode_eval_stores_nothing :
  let host := Reference.emptyHost in
  let platform := Reference.platform in
  let evalHost := Reference.emptyEvalHost in
  let ref := mkLocalVarRef 0 FP1Type in
  let '(assign, _, env, ex) :=
    prep host (Reference.assign "x" (Reference.num 5)) AnyType emptyEnv emptyExpr in
  let '(x, _, _, ex') := prep host (Reference.var "x") AnyType env ex in
  assign = SeExprAssignNode NoneType "x" None FP1Type (SeExprNumNode FP1Type 5)
  /\ find env "x" = Some ref
  /\ x = SeExprVarNode FP1Type "x" (Some (LocalVarRef ref))
  /\ errors ex' = []
  /\ (forall st out,
        eval platform evalHost assign st (Temp out) = (st, Temp (vsplat 0%float)))
  /\ (forall st out out',
        let '(st1, _) := eval platform evalHost assign st (Temp out) in
        eval platform evalHost x st1 (Temp out')
        = (st, Temp (readLocal platform st 0)))
  /\ eval platform evalHost (SeExprBlockNode FP1Type assign x) Reference.emptyState
       (Temp (vsplat 0%float))
     = (Reference.emptyState, Temp (indeterminate platform)).
Proof. simpl. repeat split. Qed.

(** ** The invariant of the prep pass *)

(** Induction over nodes, with the hypothesis available for every child. *)
Lemma SeExprNode_children_ind (P : SeExprNode -> Prop) :
  (forall n, Forall P (children n) -> P n) -> forall n, P n.
Proof.
  intros H. fix IH 1. intros n. apply H.
  destruct n as [t cs | | | | | | | | | | | | | | | t name func nargs cs];
    simpl; repeat constructor; try apply IH.
  - revert cs. fix IHl 1. intros [|c cs]; constructor; [apply IH | apply IHl].
  - revert cs. fix IHl 1. intros [|c cs]; constructor; [apply IH | apply IHl].
Qed.

Lemma failed_addError (ex : SeExpression) (msg : string) : failed (addError ex msg).
Proof. unfold failed. simpl. by destruct (errors ex). Qed.

Lemma failed_dec (ex : SeExpression) : failed ex \/ errors ex = [].
Proof. unfold failed. destruct (errors ex); [right; reflexivity | left; discriminate]. Qed.

Lemma sound_failed (env : SeExprVarEnv) (ex : SeExpression) : failed ex -> sound env ex.
Proof. intros Hf He. contradiction. Qed.

Lemma sound_mono (env : SeExprVarEnv) (ex ex' : SeExpression) :
  sound env ex -> (failed ex -> failed ex') -> sound env ex'.
Proof.
  intros Hs Hm He. apply Hs. destruct (failed_dec ex) as [Hf | Hn]; [| exact Hn].
  exfalso. exact (Hm Hf He).
Qed.

Lemma sound_newScope (env : SeExprVarEnv) (ex : SeExpression) :
  sound env ex -> sound (newScope env) ex.
Proof.
  intros Hs He. specialize (Hs He). unfold envValid, newScope in *. simpl.
  constructor; [apply map_Forall_empty | exact Hs].
Qed.

Lemma sound_parent (env child : SeExprVarEnv) (ex : SeExpression) :
  parents child = frame env :: parents env -> sound child ex -> sound env ex.
Proof.
  intros Hp Hs He. specialize (Hs He). unfold envValid in *. rewrite Hp in Hs.
  by apply Forall_cons in Hs as [_ Hs].
Qed.

Lemma sound_add (env : SeExprVarEnv) (ex : SeExpression) (name : string)
    (t : SeExprType) (id : nat) :
  sound env ex -> (isValid t = false -> failed ex) ->
  sound (add env name (mkLocalVarRef id t)) ex.
Proof.
  intros Hs Ht He. specialize (Hs He). unfold envValid, add in *. simpl.
  apply Forall_cons in Hs as [Hf Hp]. constructor; [| exact Hp].
  apply map_Forall_insert_2; [| exact Hf]. simpl.
  destruct (isValid t); [reflexivity |]. exfalso. by apply Ht.
Qed.

Lemma sound_addEnv (env child : SeExprVarEnv) (ex : SeExpression) :
  sound env ex -> sound child ex -> sound (addEnv env child) ex.
Proof.
  intros Hs Hc He. specialize (Hs He). specialize (Hc He).
  unfold envValid, addEnv in *. simpl.
  apply Forall_cons in Hs as [Hf Hp]. apply Forall_cons in Hc as [Hcf _].
  constructor; [| exact Hp]. by apply map_Forall_union_2.
Qed.

Lemma envValid_find (env : SeExprVarEnv) (name : string) (r : SeExprLocalVarRef) :
  envValid env -> find env name = Some r -> isValid (lv_type r) = true.
Proof.
  unfold envValid, find. generalize (frame env :: parents env). intros fs.
  induction 1 as [|f fs Hf Hfs IH]; simpl; [discriminate |].
  destruct (f !! name) as [r'|] eqn:Hl.
  - intros [= ->]. exact (Hf _ _ Hl).
  - exact IH.
Qed.

(** The three outcomes of an operand check. *)
Lemma checkOperand_cases (t expected : SeExprType) (msg : string) (error : bool)
    (ex : SeExpression) :
  (checkOperand t expected msg error ex = (error, ex) /\ isValid t = true)
  \/ (checkOperand t expected msg error ex = (true, ex) /\ isValid t = false)
  \/ (checkOperand t expected msg error ex = (true, addError ex msg)
      /\ isValid t = true).
Proof.
  unfold checkOperand. destruct (isValid t); simpl; [| auto].
  destruct (isa t expected); simpl; auto.
Qed.

Section PrepInvariant.
Variable host : PrepHost.

(** The host hands out variables and functions of valid types, and no
    [FUNCX] callbacks (whose [prep] is the host's own code). *)
Hypothesis resolveVar_valid :
  forall name v, resolveVar host name = Some v -> isValid (varType v) = true.
Hypothesis resolveFunc_plain :
  forall name f, resolveFunc host name = Some f ->
                 isValid (retType f) = true /\ isFUNCX f = None.
Hypothesis lookup_plain :
  forall name f, lookup host name = Some f ->
                 isValid (retType f) = true /\ isFUNCX f = None.

(** Run the next [prep] of the goal, on the child [c], with its induction
    hypothesis [IH]. *)
Tactic Notation "child" constr(IH) constr(c)
    "as" ident(c') ident(t) ident(env') ident(ex') :=
  match goal with
  | |- context [prep host c ?w ?env ?ex] =>
      let Hs := fresh "Hs" in
      assert (Hs : sound env ex)
        by eauto using sound_failed, sound_newScope, sound_parent, failed_addError;
      let H := fresh "H" in
      pose proof (IH w env ex Hs) as H;
      destruct (prep host c w env ex) as [[[c' t] env'] ex'];
      destruct H as [? ? ? ? ?]; simpl in *
  end.

(** Split on the next operand check of the goal. *)
Ltac check :=
  match goal with
  | |- context [checkOperand ?t ?e ?m ?err ?ex] =>
      let Hc := fresh "Hc" in
      let Hv := fresh "Hv" in
      destruct (checkOperand_cases t e m err ex) as [[Hc Hv] | [[Hc Hv] | [Hc Hv]]];
      rewrite Hc; clear Hc; simpl in *
  end.

Ltac split_defined :=
  repeat match goal with
         | H : _ && _ = true |- _ => apply andb_true_iff in H as [? ?]
         end.

Ltac saturate :=
  repeat match goal with
         | H : ?A -> _, H' : ?A |- _ => specialize (H H')
         | H : ?x = ?x -> _ |- _ => specialize (H eq_refl)
         | H : failed (addError _ _) -> _ |- _ => specialize (H (failed_addError _ _))
         end.

Ltac finish :=
  constructor; simpl; intros; split_defined; saturate;
  try discriminate; try congruence;
  eauto using failed_addError, sound_failed, sound_addEnv.

Ltac two IH :=
  apply Forall_cons in IH as [?IH0 IH];
  apply Forall_cons_1 in IH as [?IH1 _].

Ltac three IH :=
  apply Forall_cons in IH as [?IH0 IH];
  apply Forall_cons in IH as [?IH1 IH];
  apply Forall_cons_1 in IH as [?IH2 _].

(** The loop of [SeExprNode::prep]. *)
Lemma prepChildren_ok (cs : list SeExprNode) :
  Forall (prepSound host) cs ->
  forall error env ex, sound env ex ->
    let r := prepChildren (prep host) cs error env ex in
    parents r.1.2 = parents env /\ sound r.1.2 r.2
    /\ (failed ex -> failed r.2)
    /\ (error = false -> r.1.1.2 = true -> failed r.2)
    /\ (error = true -> r.1.1.2 = true)
    /\ (forallb (allDefined host) cs = true -> r.1.1.2 = false ->
        errors r.2 = errors ex).
Proof.
  induction 1 as [|c cs Hc Hcs IH]; intros error env ex Hsound; simpl.
  - repeat split; auto; congruence.
  - destruct error; simpl; [repeat split; auto; congruence |].
    child Hc c as c' t env1 ex1.
    assert (Hs1 : sound env1 ex1) by assumption.
    specialize (IH (negb (isValid t)) env1 ex1 Hs1).
    destruct (prepChildren (prep host) cs (negb (isValid t)) env1 ex1) as [[[? ?] ?] ?].
    simpl in *. destruct IH as (? & ? & ? & ? & ? & ?).
    destruct (isValid t) eqn:?; simpl in *;
      repeat split; intros; split_defined; saturate; try congruence; auto.
Qed.

(** The loop of [SeExprFuncNode::prepArgs]. *)
Lemma prepArgsLoop_ok (name : string) (wanted : SeExprType) (cs : list SeExprNode) :
  Forall (prepSound host) cs ->
  forall count error env ex, sound env ex -> (error = true -> failed ex) ->
    let r := prepArgsLoop (prep host) name wanted cs count error env ex in
    parents r.1.2 = parents env /\ sound r.1.2 r.2
    /\ (failed ex -> failed r.2)
    /\ (r.1.1.2 = true -> failed r.2)
    /\ (error = true -> r.1.1.2 = true)
    /\ (forallb (allDefined host) cs = true -> r.1.1.2 = false ->
        errors r.2 = errors ex).
Proof.
  induction 1 as [|c cs Hc Hcs IH]; intros count error env ex Hsound Herr; simpl.
  - repeat split; auto; congruence.
  - child Hc c as c' t env1 ex1.
    destruct (isValid t) eqn:Hv; simpl;
      [destruct (isa t wanted) eqn:Hi; simpl |];
    match goal with
    | |- context [prepArgsLoop _ _ _ _ ?k ?e ?env' ?ex'] =>
        let Hs' := fresh in
        assert (Hs' : sound env' ex') by eauto using sound_failed, failed_addError;
        let He' := fresh in
        assert (He' : e = true -> failed ex')
          by (intros; saturate; eauto using failed_addError);
        specialize (IH k e env' ex' Hs' He');
        destruct (prepArgsLoop (prep host) name wanted cs k e env' ex') as [[[? ?] ?] ?];
        simpl in *; destruct IH as (? & ? & ? & ? & ? & ?)
    end;
    repeat split; intros; split_defined; saturate; try congruence; auto.
Qed.

(** Every node keeps the guarantees of [prepOk]. *)
Lemma prep_sound : forall n, prepSound host n.
Proof.
  induction n as [n IH] using SeExprNode_children_ind.
  destruct n as [t cs | t c0 c1 | t c0 c1 c2 | t name var at_ c0 | t c0 c1 c2
                | t c0 c1 c2 | t c0 c1 | t c0 c1 | t c0 c1 | op t c0 | op t c0 c1
                | op t c0 c1 | t name var | t v | t str | t name func nargs cs];
    simpl in IH; intros wanted env ex Hsound; simpl.
  - (* SeExprNode *)
    pose proof (prepChildren_ok _ IH false env ex Hsound) as H.
    destruct (prepChildren (prep host) cs false env ex) as [[[? b] ?] ?].
    simpl in *. destruct H as (? & ? & ? & ? & _ & ?).
    destruct b; finish.
  - (* Block *)
    two IH. child IH0 c0 as c0' t0 env0 ex0. child IH1 c1 as c1' t1 env1 ex1.
    destruct (isValid t0) eqn:?; simpl; finish.
  - (* IfThenElse *)
    three IH. child IH0 c0 as c0' condType env0 ex0.
    check; child IH1 c1 as c1' thenType thenEnv ex1;
      child IH2 c2 as c2' elseType elseEnv ex2;
      (assert (Hthen : sound thenEnv ex2) by (eapply sound_mono; eassumption));
      (assert (Hparent : sound env0 ex2) by eauto using sound_parent);
      destruct (isValid thenType) eqn:?, (isValid elseType) eqn:?; simpl;
      destruct (changesMatch env0 thenEnv elseEnv); simpl; finish.
  - (* Assign *)
    apply Forall_cons_1 in IH as [IH0 _].
    child IH0 c0 as c0' assignedType env0 ex0.
    constructor; simpl; intros; split_defined; saturate;
      try discriminate; try congruence; eauto.
    + apply sound_add; assumption.
    + destruct (isValid assignedType); [discriminate | auto].
    + destruct (isValid assignedType) eqn:?; [auto | discriminate].
  - (* Vec *)
    three IH. unfold checkComponent.
    child IH0 c0 as c0' t0 env0 ex0.
    check; child IH1 c1 as c1' t1 env1 ex1; check;
      child IH2 c2 as c2' t2 env2 ex2; check; finish.
  - (* Cond *)
    three IH. child IH0 c0 as c0' condType env0 ex0.
    check; child IH1 c1 as c1' thenType env1 ex1;
      child IH2 c2 as c2' elseType env2 ex2;
      destruct (isValid thenType) eqn:?, (isValid elseType) eqn:?; simpl;
      try (destruct (isa thenType wanted), (isa elseType wanted); simpl); finish.
  - (* And *)
    two IH. child IH0 c0 as c0' t0 env0 ex0.
    check; child IH1 c1 as c1' t1 env1 ex1; check; finish.
  - (* Or *)
    two IH. child IH0 c0 as c0' t0 env0 ex0.
    check; child IH1 c1 as c1' t1 env1 ex1; check; finish.
  - (* Subscript *)
    two IH. child IH0 c0 as c0' t0 env0 ex0.
    check; child IH1 c1 as c1' t1 env1 ex1; check; finish.
  - (* Neg, Invert, Not *)
    apply Forall_cons_1 in IH as [IH0 _].
    child IH0 c0 as c0' t0 env0 ex0.
    destruct (isValid t0) eqn:?, (isa t0 NumericType) eqn:?; simpl; finish.
  - (* Eq ... Ge *)
    two IH. child IH0 c0 as c0' t0 env0 ex0.
    check; child IH1 c1 as c1' t1 env1 ex1; check;
      rewrite ?Hv, ?Hv0; simpl; destruct (compatibleNum t0 t1); simpl; finish.
  - (* Add ... Exp *)
    two IH. child IH0 c0 as c0' t0 env0 ex0.
    check; child IH1 c1 as c1' t1 env1 ex1; check;
      rewrite ?Hv, ?Hv0; simpl; destruct (compatibleNum t0 t1); simpl;
      try destruct (isFP1 t0); finish.
  - (* Var *)
    destruct (find env name) as [r|] eqn:Hf; simpl.
    + constructor; simpl; auto. intros Hinv.
      destruct (failed_dec ex) as [? | He]; [assumption |].
      rewrite (envValid_find _ _ _ (Hsound He) Hf) in Hinv. discriminate.
    + destruct (resolveVar host name) as [x|] eqn:Hr; simpl.
      * constructor; simpl; auto. intros Hinv.
        rewrite (resolveVar_valid _ _ Hr) in Hinv. discriminate.
      * finish.
  - (* Num *) finish.
  - (* Str *) finish.
  - (* Func *)
    set (found := match resolveFunc host name with
                  | Some f => Some f
                  | None => lookup host name
                  end).
    assert (Hcases : (exists f, found = Some f /\ isValid (retType f) = true
                                /\ isFUNCX f = None)
                     \/ (found = None /\ resolves host name = false)).
    { subst found. destruct (resolveFunc host name) as [f|] eqn:Hr.
      - left. exists f. split; [reflexivity |]. eauto.
      - destruct (lookup host name) as [f|] eqn:Hl.
        + left. exists f. split; [reflexivity |]. eauto.
        + right. split; [reflexivity |]. unfold resolves.
          apply bool_decide_eq_false_2. rewrite Hr, Hl.
          intros [[? ?] | [? ?]]; discriminate. }
    clearbody found.
    destruct Hcases as [(f & -> & Hret & Hplain) | [-> Hres]].
    + destruct (Z.of_nat (length cs) <? minArgs f)%Z;
        [| destruct ((maxArgs f <? Z.of_nat (length cs))%Z && (0 <=? maxArgs f)%Z)].
      * pose proof (prepChildren_ok _ IH false env
                      (addError ex ("Too few args for function " +:+ name))
                      (sound_failed _ _ (failed_addError _ _))) as H.
        destruct (prepChildren (prep host) cs false env _) as [[[? b] ?] ?].
        simpl in *. destruct H as (? & ? & ? & ? & _ & ?).
        destruct b; finish.
      * pose proof (prepChildren_ok _ IH false env
                      (addError ex ("Too many args for function " +:+ name))
                      (sound_failed _ _ (failed_addError _ _))) as H.
        destruct (prepChildren (prep host) cs false env _) as [[[? b] ?] ?].
        simpl in *. destruct H as (? & ? & ? & ? & _ & ?).
        destruct b; finish.
      * rewrite Hplain.
        pose proof (prepArgsLoop_ok "placeholder"
                      (if isScalar f then FP1Type else FPNType 3) _ IH 0 false env ex
                      Hsound ltac:(discriminate)) as H.
        destruct (prepArgsLoop (prep host) _ _ cs 0 false env ex) as [[[? b] ?] ?].
        simpl in *. destruct H as (? & ? & ? & ? & _ & ?).
        destruct b; finish.
    + pose proof (prepChildren_ok _ IH false env
                    (addError ex ("Function " +:+ name +:+ " has no definition"))
                    (sound_failed _ _ (failed_addError _ _))) as H.
      destruct (prepChildren (prep host) cs false env _) as [[[? b] ?] ?].
      simpl in *. destruct H as (? & ? & ? & ? & _ & ?).
      rewrite Hres. destruct b; finish.
Qed.

(** X1: the invariant of the prep pass, for a root prepped in an empty
    environment with no error recorded: an invalid returned type comes with
    a recorded error; and when every function called in the tree has a
    definition, a valid returned type comes with an empty error list. *)
Theorem prep_error_iff_errors (root : SeExprNode) (wanted : SeExprType) :
  let '(_, ty, _, ex) := prep host root wanted emptyEnv emptyExpr in
  (ty = ErrorType -> errors ex <> [])
  /\ (allDefined host root = true -> (ty = ErrorType <-> errors ex <> [])).
Proof.
  assert (Hstart : sound emptyEnv emptyExpr).
  { intros _. unfold envValid, emptyEnv. simpl.
    constructor; [apply map_Forall_empty | constructor]. }
  destruct (prep_sound root wanted emptyEnv emptyExpr Hstart) as [_ _ _ Hinv Hval].
  destruct (prep host root wanted emptyEnv emptyExpr) as [[[root' ty] env'] ex'].
  simpl in *.
  assert (Herr : ty = ErrorType -> errors ex' <> [])
    by (intros ->; apply Hinv; reflexivity).
  split; [exact Herr |]. intros Hdef. split; [exact Herr |].
  intros Hne. destruct ty; try reflexivity; exfalso; apply Hne, Hval; auto.
Qed.
End PrepInvariant.

Example allDefined_undefined_call :
  allDefined Reference.emptyHost (Reference.call "foo" []) = false.
Proof. reflexivity. Qed.

(** ** The theorems at concrete inputs *)

(** The reference platform converts as the C++ standard asks. *)
Lemma Reference_truncates : truncates Reference.platform.
Proof.
  intros x i Hx [Hlo Hhi]. simpl. unfold Reference.int_of_double. rewrite Hx.
  apply Z.leb_le in Hlo. apply Z.leb_le in Hhi. by rewrite Hlo, Hhi.
Qed.

(** [$P % 5] with [P] at (4, 9, 16): prep types the node [FPN(3)]; its
    evaluation into (0, 0, 0) writes [4 % 5] into lane 0 and nothing else,
    where the floor-mod of lanes 1 and 2 is 4 and 1.  Likewise
    [[7,-7,7.5] % 2], evaluated into (9, 9, 9), is (1, 9, 9).  And
    [7 % 0] is 0. *)
Lemma SeExprModNode_eval_floor_mod_witness :
  let platform := Reference.platform in
  let host := Library.evalHost in
  let st := Library.state in
  let P := SeExprVarNode (FPNType 3) "P" (Some (ExternalVarRef 0 (FPNType 3))) in
  let five := SeExprNumNode FP1Type 5 in
  let literal := SeExprVecNode (FPNType 3) (SeExprNumNode FP1Type 7)
                   (SeExprNumNode FP1Type (-7)) (SeExprNumNode FP1Type 7.5) in
  let floorMod (x y : double) :=
    if (y =? 0)%float then 0%float else (x - floor platform (x / y) * y)%float in
  prep Library.host (SeExprModNode ErrorType (Reference.var "P") (Reference.num 5))
    AnyType emptyEnv emptyExpr
  = (SeExprModNode (FPNType 3) P five, FPNType 3, emptyEnv, emptyExpr)
  /\ eval platform host P st (fresh platform) = (st, Temp (mkSeVec3d 4 9 16))
  /\ eval platform host five st (fresh platform) = (st, Temp (mkSeVec3d 5 nan nan))
  /\ eval platform host (SeExprModNode (FPNType 3) P five) st (Temp (vsplat 0))
     = (st, Temp (mkSeVec3d 4 0 0))
  /\ (mkSeVec3d (floorMod 4 5) (floorMod 9 5) (floorMod 16 5))%float = mkSeVec3d 4 4 1
  /\ prep Reference.emptyHost
       (SeExprModNode ErrorType
          (Reference.vec (Reference.num 7) (Reference.num (-7)) (Reference.num 7.5))
          (Reference.num 2)) AnyType emptyEnv emptyExpr
     = (SeExprModNode (FPNType 3) literal (SeExprNumNode FP1Type 2), FPNType 3,
        emptyEnv, emptyExpr)
  /\ eval platform host (SeExprModNode (FPNType 3) literal (SeExprNumNode FP1Type 2)) st
       (Temp (vsplat 9))
     = (st, Temp (mkSeVec3d 1 9 9))
  /\ eval platform host (SeExprModNode FP1Type (SeExprNumNode FP1Type 7)
                           (SeExprNumNode FP1Type 0)) st (Temp (vsplat 9))
     = (st, Temp (mkSeVec3d 0 9 9)).
Proof.
  intros platform host st P five literal floorMod.
  do 3 (split; [reflexivity |]).
  split.
  { exact (proj1 (SeExprModNode_eval_floor_mod platform host (FPNType 3) P five
                    st st st (Temp (vsplat 0)) (Temp (mkSeVec3d 4 9 16))
                    (Temp (mkSeVec3d 5 nan nan)) eq_refl eq_refl)). }
  do 2 (split; [reflexivity |]).
  split.
  - exact (proj1 (SeExprModNode_eval_floor_mod platform host (FPNType 3) literal
                    (SeExprNumNode FP1Type 2) st st st (Temp (vsplat 9))
                    (Temp (mkSeVec3d 7 nan nan)) (Temp (mkSeVec3d 2 nan nan))
                    eq_refl eq_refl)).
  - exact (proj1 (SeExprModNode_eval_floor_mod platform host FP1Type
                    (SeExprNumNode FP1Type 7) (SeExprNumNode FP1Type 0)
                    st st st (Temp (vsplat 9)) (Temp (mkSeVec3d 7 nan nan))
                    (Temp (mkSeVec3d 0 nan nan)) eq_refl eq_refl)).
Defined.

(** With [P] at (4, 9, 16): [$P[1.5]] is lane 1, the index being truncated
    to 1; [$P[-0.5]] is lane 0, the index being truncated toward zero to
    0 and not rounded down to -1; [$P[3]] is 0; and on the scalar 7,
    [7[2.5]] is 7. *)
Lemma SeExprSubscriptNode_eval_lane_witness :
  let platform := Reference.platform in
  let host := Library.evalHost in
  let st := Library.state in
  let P := SeExprVarNode (FPNType 3) "P" (Some (ExternalVarRef 0 (FPNType 3))) in
  let seven := SeExprNumNode FP1Type 7 in
  let index x := SeExprNumNode FP1Type x in
  let at_ c x := eval platform host (SeExprSubscriptNode FP1Type c (index x)) st
                   (Temp (vsplat 0)) in
  truncates platform
  /\ eval platform host P st (fresh platform) = (st, Temp (mkSeVec3d 4 9 16))
  /\ eval platform host seven st (fresh platform) = (st, Temp (mkSeVec3d 7 nan nan))
  /\ (truncate 1.5 = Some 1%Z /\ at_ P 1.5%float = (st, Temp (mkSeVec3d 9 0 0)))
  /\ (truncate (-0.5) = Some 0%Z /\ at_ P (-0.5)%float = (st, Temp (mkSeVec3d 4 0 0)))
  /\ (truncate 3 = Some 3%Z /\ at_ P 3%float = (st, Temp (mkSeVec3d 0 0 0)))
  /\ (truncate 2.5 = Some 2%Z /\ at_ seven 2.5%float = (st, Temp (mkSeVec3d 7 0 0))).
Proof.
  intros platform host st P seven index at_.
  assert (Hfits : forall i, (0 <= i <= 3)%Z -> fitsInt i) by (unfold fitsInt; lia).
  split; [exact Reference_truncates |]. do 2 (split; [reflexivity |]).
  split; [| split; [| split]]; (split; [reflexivity |]).
  - exact (SeExprSubscriptNode_eval_lane platform host FP1Type P (index 1.5%float)
             st st st (Temp (vsplat 0)) (Temp (mkSeVec3d 4 9 16))
             (Temp (mkSeVec3d 1.5 nan nan)) 1 Reference_truncates eq_refl eq_refl
             eq_refl (Hfits 1%Z ltac:(lia))).
  - exact (SeExprSubscriptNode_eval_lane platform host FP1Type P (index (-0.5)%float)
             st st st (Temp (vsplat 0)) (Temp (mkSeVec3d 4 9 16))
             (Temp (mkSeVec3d (-0.5) nan nan)) 0 Reference_truncates eq_refl eq_refl
             eq_refl (Hfits 0%Z ltac:(lia))).
  - exact (SeExprSubscriptNode_eval_lane platform host FP1Type P (index 3%float)
             st st st (Temp (vsplat 0)) (Temp (mkSeVec3d 4 9 16))
             (Temp (mkSeVec3d 3 nan nan)) 3 Reference_truncates eq_refl eq_refl
             eq_refl (Hfits 3%Z ltac:(lia))).
  - exact (SeExprSubscriptNode_eval_lane platform host FP1Type seven (index 2.5%float)
             st st st (Temp (vsplat 0)) (Temp (mkSeVec3d 7 nan nan))
             (Temp (mkSeVec3d 2.5 nan nan)) 2 Reference_truncates eq_refl eq_refl
             eq_refl (Hfits 2%Z ltac:(lia))).
Defined.

(** [2 * $P] with [P] at (4, 9, 16): prep types the product [FPN(3)]; its
    evaluation into (0, 0, 0) writes [2 * 4] into lane 0 and nothing else,
    where [(2, 2, 2) * (4, 9, 16)] is (8, 18, 32). *)
Lemma arithmetic_broadcasting_lane_zero_witness :
  let platform := Reference.platform in
  let host := Library.evalHost in
  let st := Library.state in
  let two := SeExprNumNode FP1Type 2 in
  let P := SeExprVarNode (FPNType 3) "P" (Some (ExternalVarRef 0 (FPNType 3))) in
  let product := SeExprMulNode ErrorType (Reference.num 2) (Reference.var "P") in
  prep Library.host (Reference.num 2) NumericType emptyEnv emptyExpr
  = (two, FP1Type, emptyEnv, emptyExpr)
  /\ prep Library.host (Reference.var "P") NumericType emptyEnv emptyExpr
     = (P, FPNType 3, emptyEnv, emptyExpr)
  /\ eval platform host two st (fresh platform) = (st, Temp (mkSeVec3d 2 nan nan))
  /\ eval platform host P st (fresh platform) = (st, Temp (mkSeVec3d 4 9 16))
  /\ (let r := prep Library.host product AnyType emptyEnv emptyExpr in
      r.1.1.2 = FPNType 3
      /\ isVec r.1.1.1 = true
      /\ eval platform host r.1.1.1 st (Temp (vsplat 0)) = (st, Temp (mkSeVec3d 8 0 0)))
  /\ vzip (arith platform MulOp) (mkSeVec3d 2 2 2) (mkSeVec3d 4 9 16)
     = mkSeVec3d 8 18 32.
Proof.
  intros platform host st two P product.
  do 4 (split; [reflexivity |]).
  split; [| reflexivity].
  pose proof (arithmetic_broadcasting_lane_zero Library.host platform host MulOp
                ErrorType AnyType (Reference.num 2) (Reference.var "P")
                two P emptyEnv emptyEnv emptyEnv emptyExpr emptyExpr emptyExpr
                st st st (Temp (vsplat 0)) (Temp (mkSeVec3d 2 nan nan))
                (Temp (mkSeVec3d 4 9 16)) eq_refl eq_refl eq_refl eq_refl) as H.
  hnf in H. destruct H as (Hty & Hvec & Hlane & _).
  split; [exact Hty |]. split; [exact Hvec | exact Hlane].
Defined.

(** [0 && tick()] and [1 || tick()]: the result is 0, resp. 1, and the
    host's call counter stays at 0; [1 && tick()] does call [tick]. *)
Lemma logical_short_circuit_witness :
  let platform := Reference.platform in
  let host := Reference.tickEvalHost in
  let st := mkEvalState ∅ 0 in
  let X := SeExprFuncNode FP1Type "tick" (Some Reference.tick) 0 [] in
  let zero := SeExprNumNode FP1Type 0 in
  let one := SeExprNumNode FP1Type 1 in
  eval platform host zero st (fresh platform) = (st, Temp (mkSeVec3d 0 nan nan))
  /\ eval platform host one st (fresh platform) = (st, Temp (mkSeVec3d 1 nan nan))
  /\ eval platform host (SeExprAndNode FP1Type zero X) st (Temp (vsplat 9))
     = (st, Temp (mkSeVec3d 0 9 9))
  /\ eval platform host (SeExprOrNode FP1Type one X) st (Temp (vsplat 9))
     = (st, Temp (mkSeVec3d 1 9 9))
  /\ eval platform host (SeExprAndNode FP1Type one X) st (Temp (vsplat 9))
     = (mkEvalState ∅ 1, Temp (mkSeVec3d 1 9 9)).
Proof.
  intros platform host st X zero one.
  split; [reflexivity |]. split; [reflexivity |].
  split; [| split; [| reflexivity]].
  - exact (proj1 (proj1 (logical_short_circuit platform host FP1Type zero X st st
                           (Temp (vsplat 9)) (Temp (mkSeVec3d 0 nan nan)) eq_refl)
                   eq_refl)).
  - exact (proj1 (proj2 (logical_short_circuit platform host FP1Type one X st st
                           (Temp (vsplat 9)) (Temp (mkSeVec3d 1 nan nan)) eq_refl)
                   eq_refl)).
Defined.

(** [2 * [1,2,3]] preps to [FPN(3)]. *)
Lemma arithmetic_prep_type_witness :
  let host := Reference.emptyHost in
  let two := Reference.num 2 in
  let v := Reference.vec (Reference.num 1) (Reference.num 2) (Reference.num 3) in
  let two' := SeExprNumNode FP1Type 2 in
  let v' := SeExprVecNode (FPNType 3) (SeExprNumNode FP1Type 1) (SeExprNumNode FP1Type 2)
              (SeExprNumNode FP1Type 3) in
  prep host two NumericType emptyEnv emptyExpr = (two', FP1Type, emptyEnv, emptyExpr)
  /\ prep host v NumericType emptyEnv emptyExpr = (v', FPNType 3, emptyEnv, emptyExpr)
  /\ isa FP1Type NumericType = true /\ isa (FPNType 3) NumericType = true
  /\ compatibleNum FP1Type (FPNType 3) = true
  /\ (prep host (SeExprMulNode ErrorType two v) AnyType emptyEnv emptyExpr).1.1.2
     = FPNType 3.
Proof.
  intros host two v two' v'.
  do 5 (split; [reflexivity |]).
  pose proof (arithmetic_prep_type host MulOp ErrorType AnyType two v two' v'
                emptyEnv emptyEnv emptyEnv emptyExpr emptyExpr emptyExpr
                FP1Type (FPNType 3) eq_refl eq_refl) as H.
  hnf in H. destruct H as (_ & Hnum & _).
  destruct (Hnum eq_refl eq_refl eq_refl) as (_ & Hvec & _).
  exact (Hvec (or_intror eq_refl)).
Defined.

(** [if (1) { $x = 5; } else { $x = 7; }] publishes [x];
    [if (1) { $x = 5; } else { $y = 7; }] is rejected. *)
Lemma SeExprIfThenElseNode_prep_scopes_witness :
  let host := Reference.emptyHost in
  let one := Reference.num 1 in
  let x5 := Reference.assign "x" (Reference.num 5) in
  let x7 := Reference.assign "x" (Reference.num 7) in
  let y7 := Reference.assign "y" (Reference.num 7) in
  let scope name id := add (newScope emptyEnv) name (mkLocalVarRef id FP1Type) in
  let assigned name v := SeExprAssignNode NoneType name None FP1Type (SeExprNumNode FP1Type v) in
  prep host one FP1Type emptyEnv emptyExpr
  = (SeExprNumNode FP1Type 1, FP1Type, emptyEnv, emptyExpr)
  /\ prep host x5 AnyType (newScope emptyEnv) emptyExpr
     = (assigned "x" 5%float, NoneType, scope "x" 0, mkExpr [] false [] 1)
  /\ prep host x7 AnyType (newScope emptyEnv) (mkExpr [] false [] 1)
     = (assigned "x" 7%float, NoneType, scope "x" 1, mkExpr [] false [] 2)
  /\ prep host y7 AnyType (newScope emptyEnv) (mkExpr [] false [] 1)
     = (assigned "y" 7%float, NoneType, scope "y" 1, mkExpr [] false [] 2)
  /\ (let r := prep host (SeExprIfThenElseNode ErrorType one x5 x7) AnyType emptyEnv
                 emptyExpr in
      changesMatch emptyEnv (scope "x" 0) (scope "x" 1) = true
      /\ r.1.2 = addEnv emptyEnv (scope "x" 0)
      /\ r.2 = mkExpr [] false [] 2
      /\ r.1.1.2 = NoneType)
  /\ (let r := prep host (SeExprIfThenElseNode ErrorType one x5 y7) AnyType emptyEnv
                 emptyExpr in
      changesMatch emptyEnv (scope "x" 0) (scope "y" 1) = false
      /\ r.1.2 = emptyEnv
      /\ r.2 = mkExpr [ifMismatchError] false [] 2
      /\ r.1.1.2 = ErrorType).
Proof.
  intros host one x5 x7 y7 scope assigned.
  do 4 (split; [reflexivity |]).
  split.
  - pose proof (SeExprIfThenElseNode_prep_scopes host ErrorType AnyType one x5 x7
                  (SeExprNumNode FP1Type 1) (assigned "x" 5%float) (assigned "x" 7%float)
                  emptyEnv emptyEnv (scope "x" 0) (scope "x" 1)
                  emptyExpr emptyExpr (mkExpr [] false [] 1) (mkExpr [] false [] 2)
                  FP1Type NoneType NoneType eq_refl eq_refl eq_refl) as H.
    hnf in H. destruct H as (_ & _ & Hmatch & _).
    split; [reflexivity |]. exact (Hmatch eq_refl).
  - pose proof (SeExprIfThenElseNode_prep_scopes host ErrorType AnyType one x5 y7
                  (SeExprNumNode FP1Type 1) (assigned "x" 5%float) (assigned "y" 7%float)
                  emptyEnv emptyEnv (scope "x" 0) (scope "y" 1)
                  emptyExpr emptyExpr (mkExpr [] false [] 1) (mkExpr [] false [] 2)
                  FP1Type NoneType NoneType eq_refl eq_refl eq_refl) as H.
    hnf in H. destruct H as (_ & _ & _ & Hmismatch & _).
    split; [reflexivity |]. exact (Hmismatch eq_refl).
Defined.

(** [$x = $undefined] binds [x] to a reference of type [Error]; [$x]
    prepped afterwards resolves to it and adds no message. *)
Lemma SeExprAssignNode_prep_binds_name_witness :
  let host := Reference.emptyHost in
  let undefined := Reference.var "undefined" in
  let reported := mkExpr ["No variable named $undefined"] false [] 0 in
  let ref := mkLocalVarRef 0 ErrorType in
  let r := prep host (Reference.assign "x" undefined) AnyType emptyEnv emptyExpr in
  prep host undefined AnyType emptyEnv emptyExpr
  = (SeExprVarNode ErrorType "undefined" None, ErrorType, emptyEnv, reported)
  /\ find r.1.2 "x" = Some ref
  /\ errors r.2 = ["No variable named $undefined"]
  /\ prep host (Reference.var "x") AnyType r.1.2 r.2
     = (SeExprVarNode ErrorType "x" (Some (LocalVarRef ref)), ErrorType, r.1.2, r.2).
Proof.
  intros host undefined reported ref r.
  split; [reflexivity |].
  pose proof (SeExprAssignNode_prep_binds_name host ErrorType ErrorType AnyType ErrorType
                "x" None undefined (SeExprVarNode ErrorType "undefined" None)
                emptyEnv emptyEnv emptyExpr reported eq_refl) as H.
  hnf in H. destruct H as (_ & _ & _ & Herrors & _ & Hfind & Hvar).
  split; [exact Hfind |]. split; [exact Herrors |].
  exact (Hvar r.1.2 ErrorType None AnyType r.2 (or_introl eq_refl)).
Defined.

(** C5 as stated fails on [if ("s") { } else { }]: the two branch scopes
    match (neither declares a name) and the then scope is merged, but the
    condition is a string, so the node's type is [Error], not [None]. *)
Lemma SeExprIfThenElseNode_prep_counterexample :
  let host := Reference.emptyHost in
  let empty := SeExprPlainNode ErrorType [] in
  let node := SeExprIfThenElseNode ErrorType (SeExprStrNode ErrorType "s") empty empty in
  prep host empty AnyType (newScope emptyEnv) emptyExpr
  = (SeExprPlainNode NoneType [], NoneType, newScope emptyEnv, emptyExpr)
  /\ changesMatch emptyEnv (newScope emptyEnv) (newScope emptyEnv) = true
  /\ (let '(_, ty, env', ex') := prep host node AnyType emptyEnv emptyExpr in
      ty = ErrorType /\ ty <> NoneType
      /\ env' = addEnv emptyEnv (newScope emptyEnv)
      /\ errors ex' = [ifConditionError StringType]).
Proof. simpl. repeat split. discriminate. Qed.

(** ** What the prep pass leaves alone *)

Ltac two IH :=
  apply Forall_cons in IH as [?IH0 IH];
  apply Forall_cons_1 in IH as [?IH1 _].

Ltac three IH :=
  apply Forall_cons in IH as [?IH0 IH];
  apply Forall_cons in IH as [?IH1 IH];
  apply Forall_cons_1 in IH as [?IH2 _].

Ltac split_andb :=
  repeat match goal with
         | H : _ && _ = true |- _ => apply andb_true_iff in H as [? ?]
         end.

Lemma extends_refl (ex : SeExpression) : extends ex ex.
Proof. split; [| split; [| split]]; auto. exists []. by rewrite app_nil_r. Qed.

Lemma extends_addError (a b : SeExpression) (msg : string) :
  extends a b -> extends a (addError b msg).
Proof.
  intros ([m Hm] & Hu & Hc & Ha). split; [| split; [| split]]; simpl; auto.
  exists (m ++ [msg])%list. by rewrite Hm, app_assoc.
Qed.

Lemma extends_newLocalVarRef (a b : SeExpression) (t : SeExprType) :
  extends a b -> extends a (newLocalVarRef b t).2.
Proof. intros (Hm & Hu & Hc & Ha). split; [| split; [| split]]; simpl; auto. Qed.

Lemma extends_checkOperand (a b : SeExpression) (t e : SeExprType) (msg : string)
    (error : bool) :
  extends a b -> extends a (checkOperand t e msg error b).2.
Proof.
  intros H. unfold checkOperand. repeat case_match; simpl; auto using extends_addError.
Qed.

Lemma grows_refl (env : SeExprVarEnv) : grows env env.
Proof. split; auto. Qed.

Lemma grows_add (env0 env : SeExprVarEnv) (name : string) (r : SeExprLocalVarRef) :
  grows env0 env -> grows env0 (add env name r).
Proof.
  intros [Hp Hf]. split; [exact Hp |]. intros x Hx. simpl.
  destruct (decide (name = x)) as [-> | Hne].
  - rewrite lookup_insert_eq. eauto.
  - rewrite lookup_insert_ne by exact Hne. auto.
Qed.

Lemma grows_addEnv (env0 env child : SeExprVarEnv) :
  grows env0 env -> grows env0 (addEnv env child).
Proof.
  intros [Hp Hf]. split; [exact Hp |]. intros x Hx. simpl.
  apply lookup_union_is_Some. right. auto.
Qed.

Lemma grows_find (env env' : SeExprVarEnv) (name : string) :
  grows env env' -> is_Some (find env name) -> is_Some (find env' name).
Proof.
  intros [Hp Hf]. unfold find. simpl. rewrite Hp.
  destruct (frame env' !! name) eqn:H'; [eauto |].
  destruct (frame env !! name) eqn:H; [| auto].
  intros _. destruct (Hf name) as [? ?]; [eauto | congruence].
Qed.

Section PrepFrame.
Variable host : PrepHost.
Hypothesis host_plain : plainHost host.

(** The function a call resolves to is no [FUNCX]. *)
Lemma found_plain (name : string) (f : SeExprFunc) :
  match resolveFunc host name with
  | Some g => Some g
  | None => lookup host name
  end = Some f ->
  isFUNCX f = None.
Proof.
  intros H. apply (host_plain name). destruct (resolveFunc host name); simplify_eq; auto.
Qed.

(** *** The expression's state *)

Lemma prepChildren_appends (cs : list SeExprNode) :
  Forall (appends host) cs ->
  forall error env ex ex0, extends ex0 ex ->
    extends ex0 (prepChildren (prep host) cs error env ex).2.
Proof.
  induction 1 as [|c cs Hc Hcs IH]; intros error env ex ex0 Hex; simpl; [assumption |].
  destruct error; [assumption |].
  specialize (Hc AnyType env ex ex0 Hex).
  destruct (prep host c AnyType env ex) as [[[c' t] env1] ex1]. simpl in Hc.
  specialize (IH (negb (isValid t)) env1 ex1 ex0 Hc).
  by destruct (prepChildren (prep host) cs (negb (isValid t)) env1 ex1) as [[[? ?] ?] ?].
Qed.

Lemma prepArgsLoop_appends (name : string) (wanted : SeExprType) (cs : list SeExprNode) :
  Forall (appends host) cs ->
  forall count error env ex ex0, extends ex0 ex ->
    extends ex0 (prepArgsLoop (prep host) name wanted cs count error env ex).2.
Proof.
  induction 1 as [|c cs Hc Hcs IH]; intros count error env ex ex0 Hex; simpl; [assumption |].
  specialize (Hc wanted env ex ex0 Hex).
  destruct (prep host c wanted env ex) as [[[c' t] env1] ex1]. simpl in Hc.
  repeat case_match; simplify_eq;
    match goal with
    | H : prepArgsLoop _ _ _ _ ?k ?e ?env' ?ex' = (_, _, _, ?r) |- extends _ ?r =>
        let H' := fresh in
        assert (H' : extends ex0 ex') by auto using extends_addError;
        specialize (IH k e env' ex' ex0 H'); by rewrite H in IH
    end.
Qed.

(** Run the next [prep] of the goal, on the child [c], with its induction
    hypothesis [IH]. *)
Ltac run_appends IH c :=
  match goal with
  | |- extends ?ex0 _ =>
      match goal with
      | |- context [prep host c ?w ?env ?ex] =>
          let H := fresh "H" in
          assert (H : extends ex0 ex) by eauto using extends_addError;
          apply (IH w env) in H;
          destruct (prep host c w env ex) as [[[? ?] ?] ?]; simpl in H
      end
  end.

(** Run the next operand check of the goal. *)
Ltac chk :=
  match goal with
  | |- extends ?ex0 _ =>
      match goal with
      | |- context [checkOperand ?t ?e ?m ?err ?ex] =>
          let H := fresh "H" in
          assert (H : extends ex0 (checkOperand t e m err ex).2)
            by eauto using extends_checkOperand;
          destruct (checkOperand t e m err ex) as [? ?]; simpl in H
      end
  end.

Ltac done_extends :=
  repeat case_match; simplify_eq; simpl;
  eauto using extends_addError, extends_newLocalVarRef.

Lemma prep_appends : forall n, appends host n.
Proof.
  induction n as [n IH] using SeExprNode_children_ind.
  destruct n as [t cs | t c0 c1 | t c0 c1 c2 | t name var at_ c0 | t c0 c1 c2
                | t c0 c1 c2 | t c0 c1 | t c0 c1 | t c0 c1 | op t c0 | op t c0 c1
                | op t c0 c1 | t name var | t v | t str | t name func nargs cs];
    simpl in IH; intros wanted env ex ex0 Hex; simpl.
  - pose proof (prepChildren_appends _ IH false env ex ex0 Hex) as H.
    by destruct (prepChildren (prep host) cs false env ex) as [[[? ?] ?] ?].
  - two IH. run_appends IH0 c0. run_appends IH1 c1. assumption.
  - three IH. run_appends IH0 c0. chk. run_appends IH1 c1. run_appends IH2 c2.
    done_extends.
  - apply Forall_cons_1 in IH as [IH0 _]. run_appends IH0 c0.
    apply extends_newLocalVarRef with (t := ErrorType) in H. exact H.
  - three IH. unfold checkComponent.
    run_appends IH0 c0. chk. run_appends IH1 c1. chk. run_appends IH2 c2. chk.
    assumption.
  - three IH. run_appends IH0 c0. chk. run_appends IH1 c1. run_appends IH2 c2.
    done_extends.
  - two IH. run_appends IH0 c0. chk. run_appends IH1 c1. chk. assumption.
  - two IH. run_appends IH0 c0. chk. run_appends IH1 c1. chk. assumption.
  - two IH. run_appends IH0 c0. chk. run_appends IH1 c1. chk. assumption.
  - apply Forall_cons_1 in IH as [IH0 _]. run_appends IH0 c0. done_extends.
  - two IH. run_appends IH0 c0. chk. run_appends IH1 c1. chk. done_extends.
  - two IH. run_appends IH0 c0. chk. run_appends IH1 c1. chk. done_extends.
  - done_extends.
  - assumption.
  - assumption.
  - destruct (match resolveFunc host name with
              | Some f => Some f
              | None => lookup host name
              end) as [f|] eqn:Hfound.
    + rewrite (found_plain _ _ Hfound).
      repeat case_match; simplify_eq; simpl;
        match goal with
        | H : prepChildren _ _ _ ?env' ?ex' = (_, _, _, ?r) |- extends _ ?r =>
            let H' := fresh in
            assert (H' : extends ex0 ex') by auto using extends_addError;
            apply (prepChildren_appends _ IH false env') in H'; by rewrite H in H'
        | H : prepArgsLoop _ ?nm ?w _ ?k ?e ?env' ?ex' = (_, _, _, ?r) |- extends _ ?r =>
            let H' := fresh in
            assert (H' : extends ex0 ex') by auto using extends_addError;
            apply (prepArgsLoop_appends nm w _ IH k e env') in H'; by rewrite H in H'
        end.
    + match goal with
      | |- context [prepChildren _ _ _ ?env' ?ex'] =>
          let H' := fresh in
          assert (H' : extends ex0 ex') by auto using extends_addError;
          apply (prepChildren_appends _ IH false env') in H';
          by destruct (prepChildren (prep host) cs false env' ex') as [[[? ?] ?] ?]
      end.
Qed.

(** X2: what [prep] does to the expression's state.  With a host that
    hands out no [FUNCX] callback, [prep] of any tree, from any
    environment and state, only appends to the error list (every message
    recorded before is still there, in place), allocates variable
    references without releasing any, and leaves the thread-safety flag and
    the list of thread-unsafe calls as they were. *)
Theorem prep_only_appends (n : SeExprNode) (wanted : SeExprType)
    (env : SeExprVarEnv) (ex : SeExpression) :
  let '(_, _, _, ex') := prep host n wanted env ex in
  (exists more, errors ex' = errors ex ++ more)%list
  /\ threadUnsafe ex' = threadUnsafe ex
  /\ threadUnsafeFunctionCalls ex' = threadUnsafeFunctionCalls ex
  /\ (allocated ex <= allocated ex')%nat.
Proof.
  pose proof (prep_appends n wanted env ex ex (extends_refl ex)) as H.
  by destruct (prep host n wanted env ex) as [[[? ?] ?] ?].
Qed.

(** *** The tree *)

Lemma prepChildren_structure (cs : list SeExprNode) :
  Forall (keepsStructure host) cs ->
  forall error env ex,
    map structure (prepChildren (prep host) cs error env ex).1.1.1 = map structure cs.
Proof.
  induction 1 as [|c cs Hc Hcs IH]; intros error env ex; simpl; [reflexivity |].
  destruct error; [reflexivity |].
  specialize (Hc AnyType env ex).
  destruct (prep host c AnyType env ex) as [[[c' t] env1] ex1]. simpl in Hc.
  specialize (IH (negb (isValid t)) env1 ex1).
  destruct (prepChildren (prep host) cs (negb (isValid t)) env1 ex1) as [[[? ?] ?] ?].
  simpl in *. by rewrite Hc, IH.
Qed.

Lemma prepArgsLoop_structure (name : string) (wanted : SeExprType) (cs : list SeExprNode) :
  Forall (keepsStructure host) cs ->
  forall count error env ex,
    map structure (prepArgsLoop (prep host) name wanted cs count error env ex).1.1.1
    = map structure cs.
Proof.
  induction 1 as [|c cs Hc Hcs IH]; intros count error env ex; simpl; [reflexivity |].
  specialize (Hc wanted env ex).
  destruct (prep host c wanted env ex) as [[[c' t] env1] ex1]. simpl in Hc.
  repeat case_match; simplify_eq; simpl;
    match goal with
    | H : prepArgsLoop _ _ _ _ ?k ?e ?env' ?ex' = _ |- _ =>
        specialize (IH k e env' ex'); rewrite H in IH; simpl in IH; by rewrite Hc, IH
    end.
Qed.

Ltac run_structure IH c :=
  match goal with
  | |- context [prep host c ?w ?env ?ex] =>
      let H := fresh "H" in
      pose proof (IH w env ex) as H;
      destruct (prep host c w env ex) as [[[? ?] ?] ?]; simpl in H
  end.

Lemma prep_keepsStructure : forall n, keepsStructure host n.
Proof.
  induction n as [n IH] using SeExprNode_children_ind.
  destruct n as [t cs | t c0 c1 | t c0 c1 c2 | t name var at_ c0 | t c0 c1 c2
                | t c0 c1 c2 | t c0 c1 | t c0 c1 | t c0 c1 | op t c0 | op t c0 c1
                | op t c0 c1 | t name var | t v | t str | t name func nargs cs];
    simpl in IH; intros wanted env ex; simpl.
  - pose proof (prepChildren_structure _ IH false env ex) as H.
    destruct (prepChildren (prep host) cs false env ex) as [[[? ?] ?] ?].
    simpl in *. by rewrite H.
  - two IH. run_structure IH0 c0. run_structure IH1 c1. simpl. congruence.
  - three IH. run_structure IH0 c0. destruct (checkOperand _ _ _ _ _).
    run_structure IH1 c1. run_structure IH2 c2. repeat case_match; simpl; congruence.
  - apply Forall_cons_1 in IH as [IH0 _]. run_structure IH0 c0. simpl. congruence.
  - three IH. run_structure IH0 c0. destruct (checkComponent _ _ _ _).
    run_structure IH1 c1. destruct (checkComponent _ _ _ _).
    run_structure IH2 c2. destruct (checkComponent _ _ _ _). simpl. congruence.
  - three IH. run_structure IH0 c0. destruct (checkOperand _ _ _ _ _).
    run_structure IH1 c1. run_structure IH2 c2.
    repeat case_match; simplify_eq; simpl; congruence.
  - two IH. run_structure IH0 c0. destruct (checkOperand _ _ _ _ _).
    run_structure IH1 c1. destruct (checkOperand _ _ _ _ _). simpl. congruence.
  - two IH. run_structure IH0 c0. destruct (checkOperand _ _ _ _ _).
    run_structure IH1 c1. destruct (checkOperand _ _ _ _ _). simpl. congruence.
  - two IH. run_structure IH0 c0. destruct (checkOperand _ _ _ _ _).
    run_structure IH1 c1. destruct (checkOperand _ _ _ _ _). simpl. congruence.
  - apply Forall_cons_1 in IH as [IH0 _]. run_structure IH0 c0.
    repeat case_match; simplify_eq; simpl; congruence.
  - two IH. run_structure IH0 c0. destruct (checkOperand _ _ _ _ _).
    run_structure IH1 c1. destruct (checkOperand _ _ _ _ _).
    repeat case_match; simplify_eq; simpl; congruence.
  - two IH. run_structure IH0 c0. destruct (checkOperand _ _ _ _ _).
    run_structure IH1 c1. destruct (checkOperand _ _ _ _ _).
    repeat case_match; simplify_eq; simpl; congruence.
  - repeat case_match; reflexivity.
  - reflexivity.
  - reflexivity.
  - destruct (match resolveFunc host name with
              | Some f => Some f
              | None => lookup host name
              end) as [f|] eqn:Hfound.
    + rewrite (found_plain _ _ Hfound).
      repeat case_match; simplify_eq; simpl;
        match goal with
        | H : prepChildren _ _ _ ?env' ?ex' = _ |- _ =>
            let H' := fresh in
            pose proof (prepChildren_structure _ IH false env' ex') as H';
            rewrite H in H'; simpl in H'; by rewrite H'
        | H : prepArgsLoop _ ?nm ?w _ ?k ?e ?env' ?ex' = _ |- _ =>
            let H' := fresh in
            pose proof (prepArgsLoop_structure nm w _ IH k e env' ex') as H';
            rewrite H in H'; simpl in H'; by rewrite H'
        end.
    + match goal with
      | |- context [prepChildren _ _ _ ?env' ?ex'] =>
          let H' := fresh in
          pose proof (prepChildren_structure _ IH false env' ex') as H';
          destruct (prepChildren (prep host) cs false env' ex') as [[[? ?] ?] ?];
          simpl in *; by rewrite H'
      end.
Qed.

(** X3: what [prep] does to the tree.  With a host that hands out no
    [FUNCX] callback, the node [prep] returns is the node it was given with
    other annotations: the same class at every position, the same names,
    literals and operators, the same children in the same order (none
    added, dropped or reordered, also below a child that failed), and the
    variable reference an assignment holds untouched.  Only the types, the
    reference of a variable node and the [_func] and [_nargs] of a call can
    differ. *)
Theorem prep_preserves_structure (n : SeExprNode) (wanted : SeExprType)
    (env : SeExprVarEnv) (ex : SeExpression) :
  let '(n', _, _, _) := prep host n wanted env ex in
  structure n' = structure n
  /\ length (children n') = length (children n).
Proof.
  pose proof (prep_keepsStructure n wanted env ex) as H.
  destruct (prep host n wanted env ex) as [[[n' ?] ?] ?]. simpl in H.
  split; [exact H |].
  destruct n, n'; simpl in H; try discriminate H; try reflexivity;
    injection H; intros; simplify_eq;
    match goal with
    | Hm : map structure _ = map structure _ |- _ =>
        apply (f_equal length) in Hm; by rewrite !length_map in Hm
    end.
Qed.

(** *** The environment *)

Lemma prepChildren_keepsNames (cs : list SeExprNode) :
  Forall (keepsNames host) cs ->
  forall error env ex env0, grows env0 env ->
    grows env0 (prepChildren (prep host) cs error env ex).1.2.
Proof.
  induction 1 as [|c cs Hc Hcs IH]; intros error env ex env0 Hg; simpl; [assumption |].
  destruct error; [assumption |].
  specialize (Hc AnyType env ex env0 Hg).
  destruct (prep host c AnyType env ex) as [[[c' t] env1] ex1]. simpl in Hc.
  specialize (IH (negb (isValid t)) env1 ex1 env0 Hc).
  by destruct (prepChildren (prep host) cs (negb (isValid t)) env1 ex1) as [[[? ?] ?] ?].
Qed.

Lemma prepArgsLoop_keepsNames (name : string) (wanted : SeExprType)
    (cs : list SeExprNode) :
  Forall (keepsNames host) cs ->
  forall count error env ex env0, grows env0 env ->
    grows env0 (prepArgsLoop (prep host) name wanted cs count error env ex).1.2.
Proof.
  induction 1 as [|c cs Hc Hcs IH]; intros count error env ex env0 Hg; simpl;
    [assumption |].
  specialize (Hc wanted env ex env0 Hg).
  destruct (prep host c wanted env ex) as [[[c' t] env1] ex1]. simpl in Hc.
  repeat case_match; simplify_eq;
    match goal with
    | H : prepArgsLoop _ _ _ _ ?k ?e ?env' ?ex' = (_, _, ?r, _) |- grows _ ?r =>
        specialize (IH k e env' ex' env0 Hc); by rewrite H in IH
    end.
Qed.

Ltac run_names IH c :=
  match goal with
  | |- grows ?env0 _ =>
      match goal with
      | |- context [prep host c ?w ?env ?ex] =>
          let H := fresh "H" in
          assert (H : grows env0 env) by assumption;
          apply (IH w env ex) in H;
          destruct (prep host c w env ex) as [[[? ?] ?] ?]; simpl in H
      end
  end.

(** Run the next [prep] of the goal, which works in a scope of its own. *)
Ltac run_scoped c :=
  match goal with
  | |- context [prep host c ?w ?env ?ex] =>
      destruct (prep host c w env ex) as [[[? ?] ?] ?]
  end.

Ltac done_grows :=
  repeat case_match; simplify_eq; simpl; eauto using grows_add, grows_addEnv.

Lemma prep_keepsNames : forall n, keepsNames host n.
Proof.
  induction n as [n IH] using SeExprNode_children_ind.
  destruct n as [t cs | t c0 c1 | t c0 c1 c2 | t name var at_ c0 | t c0 c1 c2
                | t c0 c1 c2 | t c0 c1 | t c0 c1 | t c0 c1 | op t c0 | op t c0 c1
                | op t c0 c1 | t name var | t v | t str | t name func nargs cs];
    simpl in IH; intros wanted env ex env0 Hg; simpl.
  - pose proof (prepChildren_keepsNames _ IH false env ex env0 Hg) as H.
    by destruct (prepChildren (prep host) cs false env ex) as [[[? ?] ?] ?].
  - two IH. run_names IH0 c0. run_names IH1 c1. assumption.
  - three IH. run_names IH0 c0. destruct (checkOperand _ _ _ _ _).
    run_scoped c1. run_scoped c2. done_grows.
  - apply Forall_cons_1 in IH as [IH0 _]. run_names IH0 c0. done_grows.
  - three IH. run_names IH0 c0. destruct (checkComponent _ _ _ _).
    run_names IH1 c1. destruct (checkComponent _ _ _ _).
    run_names IH2 c2. destruct (checkComponent _ _ _ _). assumption.
  - three IH. run_names IH0 c0. destruct (checkOperand _ _ _ _ _).
    run_names IH1 c1. run_names IH2 c2. done_grows.
  - two IH. run_names IH0 c0. destruct (checkOperand _ _ _ _ _).
    run_names IH1 c1. destruct (checkOperand _ _ _ _ _). assumption.
  - two IH. run_names IH0 c0. destruct (checkOperand _ _ _ _ _).
    run_names IH1 c1. destruct (checkOperand _ _ _ _ _). assumption.
  - two IH. run_names IH0 c0. destruct (checkOperand _ _ _ _ _).
    run_names IH1 c1. destruct (checkOperand _ _ _ _ _). assumption.
  - apply Forall_cons_1 in IH as [IH0 _]. run_names IH0 c0. done_grows.
  - two IH. run_names IH0 c0. destruct (checkOperand _ _ _ _ _).
    run_names IH1 c1. destruct (checkOperand _ _ _ _ _). done_grows.
  - two IH. run_names IH0 c0. destruct (checkOperand _ _ _ _ _).
    run_names IH1 c1. destruct (checkOperand _ _ _ _ _). done_grows.
  - done_grows.
  - assumption.
  - assumption.
  - destruct (match resolveFunc host name with
              | Some f => Some f
              | None => lookup host name
              end) as [f|] eqn:Hfound.
    + rewrite (found_plain _ _ Hfound).
      repeat case_match; simplify_eq; simpl;
        match goal with
        | H : prepChildren _ _ _ ?env' ?ex' = (_, _, ?r, _) |- grows _ ?r =>
            let H' := fresh in
            pose proof (prepChildren_keepsNames _ IH false env' ex' env0 Hg) as H';
            by rewrite H in H'
        | H : prepArgsLoop _ ?nm ?w _ ?k ?e ?env' ?ex' = (_, _, ?r, _) |- grows _ ?r =>
            let H' := fresh in
            pose proof (prepArgsLoop_keepsNames nm w _ IH k e env' ex' env0 Hg) as H';
            by rewrite H in H'
        end.
    + match goal with
      | |- context [prepChildren _ _ _ ?env' ?ex'] =>
          let H' := fresh in
          pose proof (prepChildren_keepsNames _ IH false env' ex' env0 Hg) as H';
          by destruct (prepChildren (prep host) cs false env' ex') as [[[? ?] ?] ?]
      end.
Qed.

(** X4: what [prep] does to the environment.  With a host that hands out
    no [FUNCX] callback, [prep] of any tree leaves the enclosing scopes of
    the environment as they were, and every name that could be found before
    can be found afterwards: scopes opened for the branches of an [if] are
    dropped or merged, and a name is rebound, never unbound. *)
Theorem prep_keeps_names_visible (n : SeExprNode) (wanted : SeExprType)
    (env : SeExprVarEnv) (ex : SeExpression) :
  let '(_, _, env', _) := prep host n wanted env ex in
  parents env' = parents env
  /\ forall name, is_Some (find env name) -> is_Some (find env' name).
Proof.
  pose proof (prep_keepsNames n wanted env ex env (grows_refl env)) as H.
  destruct (prep host n wanted env ex) as [[[? ?] env'] ?]. simpl in H.
  split; [apply H |]. intros name. by apply grows_find.
Qed.

(** *** Read-only trees *)

Lemma prepChildren_readOnly (cs : list SeExprNode) :
  Forall (staysReadOnly host) cs -> forallb readOnly cs = true ->
  forall error env ex,
    forallb readOnly (prepChildren (prep host) cs error env ex).1.1.1 = true.
Proof.
  induction 1 as [|c cs Hc Hcs IH]; intros Hro error env ex; simpl in *; [reflexivity |].
  split_andb. destruct error; simpl; [by apply andb_true_iff |].
  specialize (Hc ltac:(assumption) AnyType env ex).
  destruct (prep host c AnyType env ex) as [[[c' t] env1] ex1]. simpl in Hc.
  specialize (IH ltac:(assumption) (negb (isValid t)) env1 ex1).
  destruct (prepChildren (prep host) cs (negb (isValid t)) env1 ex1) as [[[? ?] ?] ?].
  simpl in *. by apply andb_true_iff.
Qed.

Lemma prepArgsLoop_readOnly (name : string) (wanted : SeExprType) (cs : list SeExprNode) :
  Forall (staysReadOnly host) cs -> forallb readOnly cs = true ->
  forall count error env ex,
    forallb readOnly (prepArgsLoop (prep host) name wanted cs count error env ex).1.1.1
    = true.
Proof.
  induction 1 as [|c cs Hc Hcs IH]; intros Hro count error env ex; simpl in *;
    [reflexivity |].
  split_andb. specialize (Hc ltac:(assumption) wanted env ex).
  destruct (prep host c wanted env ex) as [[[c' t] env1] ex1]. simpl in Hc.
  repeat case_match; simplify_eq; simpl;
    match goal with
    | H : prepArgsLoop _ _ _ _ ?k ?e ?env' ?ex' = _ |- _ =>
        specialize (IH ltac:(assumption) k e env' ex'); rewrite H in IH; simpl in IH;
        by apply andb_true_iff
    end.
Qed.

Ltac run_readOnly IH c :=
  match goal with
  | |- context [prep host c ?w ?env ?ex] =>
      let H := fresh "H" in
      pose proof (IH ltac:(assumption) w env ex) as H;
      destruct (prep host c w env ex) as [[[? ?] ?] ?]; simpl in H
  end.

Ltac done_readOnly :=
  repeat case_match; simplify_eq; simpl; repeat (apply andb_true_iff; split); auto.

Lemma prep_staysReadOnly : forall n, staysReadOnly host n.
Proof.
  induction n as [n IH] using SeExprNode_children_ind.
  destruct n as [t cs | t c0 c1 | t c0 c1 c2 | t name var at_ c0 | t c0 c1 c2
                | t c0 c1 c2 | t c0 c1 | t c0 c1 | t c0 c1 | op t c0 | op t c0 c1
                | op t c0 c1 | t name var | t v | t str | t name func nargs cs];
    simpl in IH; intros Hro wanted env ex; simpl in Hro; split_andb; simpl.
  - pose proof (prepChildren_readOnly _ IH Hro false env ex) as H.
    by destruct (prepChildren (prep host) cs false env ex) as [[[? ?] ?] ?].
  - two IH. run_readOnly IH0 c0. run_readOnly IH1 c1. done_readOnly.
  - three IH. run_readOnly IH0 c0. destruct (checkOperand _ _ _ _ _).
    run_readOnly IH1 c1. run_readOnly IH2 c2. done_readOnly.
  - destruct var; [discriminate |].
    apply Forall_cons_1 in IH as [IH0 _]. run_readOnly IH0 c0. done_readOnly.
  - three IH. run_readOnly IH0 c0. destruct (checkComponent _ _ _ _).
    run_readOnly IH1 c1. destruct (checkComponent _ _ _ _).
    run_readOnly IH2 c2. destruct (checkComponent _ _ _ _). done_readOnly.
  - three IH. run_readOnly IH0 c0. destruct (checkOperand _ _ _ _ _).
    run_readOnly IH1 c1. run_readOnly IH2 c2. done_readOnly.
  - two IH. run_readOnly IH0 c0. destruct (checkOperand _ _ _ _ _).
    run_readOnly IH1 c1. destruct (checkOperand _ _ _ _ _). done_readOnly.
  - two IH. run_readOnly IH0 c0. destruct (checkOperand _ _ _ _ _).
    run_readOnly IH1 c1. destruct (checkOperand _ _ _ _ _). done_readOnly.
  - two IH. run_readOnly IH0 c0. destruct (checkOperand _ _ _ _ _).
    run_readOnly IH1 c1. destruct (checkOperand _ _ _ _ _). done_readOnly.
  - apply Forall_cons_1 in IH as [IH0 _]. run_readOnly IH0 c0. done_readOnly.
  - two IH. run_readOnly IH0 c0. destruct (checkOperand _ _ _ _ _).
    run_readOnly IH1 c1. destruct (checkOperand _ _ _ _ _). done_readOnly.
  - two IH. run_readOnly IH0 c0. destruct (checkOperand _ _ _ _ _).
    run_readOnly IH1 c1. destruct (checkOperand _ _ _ _ _). done_readOnly.
  - done_readOnly.
  - reflexivity.
  - reflexivity.
  - assert (Hcs : forallb readOnly cs = true)
      by (destruct func as [f|]; [destruct (isFUNCX f); [discriminate |] |]; assumption).
    destruct (match resolveFunc host name with
              | Some f => Some f
              | None => lookup host name
              end) as [f|] eqn:Hfound.
    + pose proof (found_plain _ _ Hfound) as Hplain. rewrite Hplain.
      repeat case_match; simplify_eq; simpl; rewrite ?Hplain;
        match goal with
        | H : prepChildren _ _ _ ?env' ?ex' = _ |- _ =>
            let H' := fresh in
            pose proof (prepChildren_readOnly _ IH Hcs false env' ex') as H';
            rewrite H in H'; exact H'
        | H : prepArgsLoop _ ?nm ?w _ ?k ?e ?env' ?ex' = _ |- _ =>
            let H' := fresh in
            pose proof (prepArgsLoop_readOnly nm w _ IH Hcs k e env' ex') as H';
            rewrite H in H'; exact H'
        end.
    + match goal with
      | |- context [prepChildren _ _ _ ?env' ?ex'] =>
          let H' := fresh in
          pose proof (prepChildren_readOnly _ IH Hcs false env' ex') as H';
          by destruct (prepChildren (prep host) cs false env' ex') as [[[? ?] ?] ?]
      end.
Qed.
End PrepFrame.

(** ** The prep pass, class by class *)

Section PrepClasses.
Variable host : PrepHost.

(** X5: the types [prep] can return, by node class, whatever the children,
    the wanted type, the environment and the host are.  A plain node, an
    [if] and an assignment return [None] or [Error]; a vector literal
    [FP[3]] or [Error]; [&&], [||], a subscript and the six comparisons [FP1]
    or [Error]; the six arithmetic operators [FP1], [FP[3]] or [Error] and no
    other width; a numeric literal always [FP1] and a string literal always
    [String]. *)
Theorem prep_type_range (n : SeExprNode) (wanted : SeExprType)
    (env : SeExprVarEnv) (ex : SeExpression) :
  let '(_, ty, _, _) := prep host n wanted env ex in
  match n with
  | SeExprPlainNode _ _ | SeExprIfThenElseNode _ _ _ _ | SeExprAssignNode _ _ _ _ _ =>
      ty = NoneType \/ ty = ErrorType
  | SeExprVecNode _ _ _ _ => ty = FPNType 3 \/ ty = ErrorType
  | SeExprAndNode _ _ _ | SeExprOrNode _ _ _ | SeExprSubscriptNode _ _ _
  | SeExprCompareNode _ _ _ _ => ty = FP1Type \/ ty = ErrorType
  | SeExprArithNode _ _ _ _ => ty = FP1Type \/ ty = FPNType 3 \/ ty = ErrorType
  | SeExprNumNode _ _ => ty = FP1Type
  | SeExprStrNode _ _ => ty = StringType
  | _ => True
  end.
Proof.
  destruct n; simpl; try exact I; repeat case_match; simplify_eq; auto.
  all: unfold checkOperand in *; repeat case_match; simplify_eq; simpl in *;
    try discriminate; auto.
  all: match goal with
       | H : context [compatibleNum ?a ?b] |- _ =>
           destruct a as [| |[|[|[|[|?]]]]| | | |], b as [| |[|[|[|[|?]]]]| | | |];
           simpl in *; try discriminate; auto
       end.
Qed.

(** X6: the node classes that never read the [wanted] parameter.  For every
    class but the block, the ternary conditional, the three unary operators
    and the function call, [prep] returns the same node, type, environment
    and expression state whatever type the caller asks for. *)
Theorem prep_ignores_wanted (n : SeExprNode) (wanted wanted' : SeExprType)
    (env : SeExprVarEnv) (ex : SeExpression) :
  ignoresWanted n = true ->
  prep host n wanted env ex = prep host n wanted' env ex.
Proof. destruct n; simpl; intros H; try discriminate H; reflexivity. Qed.

(** The loop of [SeExprNode::prep] over a list that starts with children
    that all prep to valid types. *)
Lemma prepChildren_app (pre rest pre' : list SeExprNode) (env env' : SeExprVarEnv)
    (ex ex' : SeExpression) :
  prepChildren (prep host) pre false env ex = (pre', false, env', ex') ->
  prepChildren (prep host) (pre ++ rest)%list false env ex
  = (let '(rest', error, env'', ex'') := prepChildren (prep host) rest false env' ex' in
     ((pre' ++ rest')%list, error, env'', ex'')).
Proof.
  revert pre' env ex. induction pre as [|c pre IH]; intros pre' env ex H; simpl in *.
  - simplify_eq. by destruct (prepChildren (prep host) rest false env' ex') as [[[? ?] ?] ?].
  - destruct (prep host c AnyType env ex) as [[[c' t] env1] ex1].
    destruct (isValid t) eqn:Hv; simpl in *.
    + destruct (prepChildren (prep host) pre false env1 ex1) as [[[pre1 e1] env2] ex2] eqn:Hp.
      simplify_eq. rewrite (IH _ _ _ Hp).
      by destruct (prepChildren (prep host) rest false env' ex') as [[[? ?] ?] ?].
    + destruct pre; simpl in H; simplify_eq.
Qed.

(** X7: [SeExprNode::prep] stops at the first child that fails.  When the
    children [pre] prep to valid types and the next child [c] preps to an
    invalid one, the node's type is [Error], the environment and the
    expression state are the ones [c] left, and the children [rest] after
    [c] are returned as they were given: they are not prepped, so no error
    in them is reported and no name they assign is bound. *)
Theorem SeExprNode_prep_stops_at_failure
    (t wanted ct : SeExprType) (pre pre' rest : list SeExprNode) (c c' : SeExprNode)
    (env env0 env1 : SeExprVarEnv) (ex ex0 ex1 : SeExpression) :
  prepChildren (prep host) pre false env ex = (pre', false, env0, ex0) ->
  prep host c AnyType env0 ex0 = (c', ct, env1, ex1) ->
  isValid ct = false ->
  prep host (SeExprPlainNode t (pre ++ c :: rest)%list) wanted env ex
  = (SeExprPlainNode ErrorType (pre' ++ c' :: rest)%list, ErrorType, env1, ex1).
Proof.
  intros Hpre Hc Hv. simpl. rewrite (prepChildren_app _ _ _ _ _ _ _ Hpre).
  simpl. rewrite Hc, Hv. simpl. by destruct rest.
Qed.

(** X8: the arity check of [SeExprFuncNode::prep], for a call of [name]
    with the arguments [args] that resolves to the function [f].  With fewer
    arguments than [minArgs] the call is rejected with the message
    [Too few args for function <name>]; with more than a [maxArgs] that is
    not negative, with [Too many args for function <name>].  A rejected call
    has the type [Error], and its arguments are prepped as a plain node
    preps its children, with any type accepted.  A negative [maxArgs] puts
    no upper bound: a call within the bounds of a function that is no
    [FUNCX] preps each argument against [FP1] for a scalar function and
    [FP[3]] otherwise, and has the function's return type unless an
    argument failed.  In every case the node records [f] and the number of
    arguments. *)
Theorem SeExprFuncNode_prep_arity
    (t wanted : SeExprType) (name : string) (func : option SeExprFunc) (nargs : nat)
    (args : list SeExprNode) (f : SeExprFunc) (env : SeExprVarEnv) (ex : SeExpression) :
  match resolveFunc host name with
  | Some g => Some g
  | None => lookup host name
  end = Some f ->
  let n := Z.of_nat (length args) in
  let rejected msg :=
    let '(args', _, env', ex') :=
      prepChildren (prep host) args false env (addError ex (msg +:+ name)) in
    (SeExprFuncNode ErrorType name (Some f) (length args) args', ErrorType, env', ex') in
  ((n < minArgs f)%Z ->
     prep host (SeExprFuncNode t name func nargs args) wanted env ex
     = rejected "Too few args for function ")
  /\ ((minArgs f <= n)%Z -> (0 <= maxArgs f < n)%Z ->
     prep host (SeExprFuncNode t name func nargs args) wanted env ex
     = rejected "Too many args for function ")
  /\ ((minArgs f <= n)%Z -> (maxArgs f < 0 \/ n <= maxArgs f)%Z -> isFUNCX f = None ->
     prep host (SeExprFuncNode t name func nargs args) wanted env ex
     = (let '(args', error, env', ex') :=
          prepArgsLoop (prep host) "placeholder"
            (if isScalar f then FP1Type else FPNType 3) args 0 false env ex in
        let ty := if error then ErrorType else retType f in
        (SeExprFuncNode ty name (Some f) (length args) args', ty, env', ex'))).
Proof.
  intros Hf n rejected. subst n rejected. simpl. rewrite Hf.
  split; [| split].
  - intros Hlt. apply Z.ltb_lt in Hlt. rewrite Hlt.
    destruct (prepChildren (prep host) args false env _) as [[[? b] ?] ?].
    by destruct b.
  - intros Hmin [Hmax0 Hmax].
    apply Z.ltb_ge in Hmin. rewrite Hmin.
    apply Z.ltb_lt in Hmax. apply Z.leb_le in Hmax0. rewrite Hmax, Hmax0. simpl.
    destruct (prepChildren (prep host) args false env _) as [[[? b] ?] ?].
    by destruct b.
  - intros Hmin Hmax Hplain.
    apply Z.ltb_ge in Hmin. rewrite Hmin.
    assert (Hno : (maxArgs f <? Z.of_nat (length args))%Z && (0 <=? maxArgs f)%Z = false).
    { destruct Hmax as [Hneg | Hle].
      - apply andb_false_iff. right. by apply Z.leb_gt.
      - apply andb_false_iff. left. by apply Z.ltb_ge. }
    rewrite Hno, Hplain.
    destruct (prepArgsLoop (prep host) _ _ args 0 false env ex) as [[[? b] ?] ?].
    by destruct b.
Qed.

(** X9: a variable that nothing resolves, from prep to eval.  When neither
    the environment nor the expression knows [name], [prep] of the variable
    node returns [Error] and appends exactly the message
    [No variable named $<name>], whatever reference the node held before;
    the node it returns evaluates to the vector (0, 0, 0) in every state and
    leaves the state alone apart from the result. *)
Theorem SeExprVarNode_unresolved_evaluates_to_zero
    {W : Type} (platform : Platform) (evalHost : EvalHost W)
    (t wanted : SeExprType) (name : string) (var : option SeExprVarRef)
    (env : SeExprVarEnv) (ex : SeExpression) :
  find env name = None ->
  resolveVar host name = None ->
  let '(node, ty, env', ex') := prep host (SeExprVarNode t name var) wanted env ex in
  ty = ErrorType /\ env' = env
  /\ errors ex' = (errors ex ++ [noVariableError name])%list
  /\ forall st result,
       eval platform evalHost node st result = writeRef st result (vsplat 0%float).
Proof. intros Hf Hr. simpl. rewrite Hf. simpl. rewrite Hr. simpl. auto. Qed.

(** X10: a call of a function that nothing defines, from prep to eval.
    When neither the expression nor the registry has a function [name],
    the node [prep] returns evaluates to the vector (0, 0, 0) in every
    state, without evaluating any argument, whatever function the node held
    before and whatever its arguments are. *)
Theorem SeExprFuncNode_undefined_evaluates_to_zero
    {W : Type} (platform : Platform) (evalHost : EvalHost W)
    (t wanted : SeExprType) (name : string) (func : option SeExprFunc) (nargs : nat)
    (args : list SeExprNode) (env : SeExprVarEnv) (ex : SeExpression) :
  resolveFunc host name = None ->
  lookup host name = None ->
  let '(node, _, _, _) := prep host (SeExprFuncNode t name func nargs args) wanted env ex in
  forall st result,
    eval platform evalHost node st result = writeRef st result (vsplat 0%float).
Proof.
  intros Hr Hl. simpl. rewrite Hr, Hl.
  destruct (prepChildren (prep host) args false env _) as [[[? ?] ?] ?]. reflexivity.
Qed.
End PrepClasses.

(** ** Members beside prep and eval *)

(** X16: a vector literal evaluates its first component only.  On three
    numeric literals [value()] is the three literals and [prep] types the
    node [FPN(3)], leaving environment and expression state alone whatever
    is wanted; and yet the prepped node writes the first literal into lane
    0 of the result and leaves lanes 1 and 2 as they were, so [eval] and
    [value()] agree in lane 0 only.  For every vector node, [eval] is the
    [eval] of its first component into the same result: the second and the
    third component are not evaluated, and replacing them by any nodes
    changes neither the state nor the result. *)
Theorem SeExprVecNode_eval_first_component
    {W : Type} (host : PrepHost) (platform : Platform) (evalHost : EvalHost W)
    (t ta tb tc wanted : SeExprType) (a b c : double)
    (env : SeExprVarEnv) (ex : SeExpression) (st : EvalState W) (r : SeVec3d) :
  let c0 := SeExprNumNode ta a in
  let c1 := SeExprNumNode tb b in
  let c2 := SeExprNumNode tc c in
  value c0 c1 c2 = mkSeVec3d a b c
  /\ (let '(node, ty, env', ex') := prep host (SeExprVecNode t c0 c1 c2) wanted env ex in
      ty = FPNType 3 /\ isVec node = true /\ env' = env /\ ex' = ex
      /\ eval platform evalHost node st (Temp r) = (st, Temp (vset r 0 a))
      /\ lane0 (vset r 0 a) = lane0 (value c0 c1 c2))
  /\ (forall t' d0 d1 d2 e1 e2 st' result,
        eval platform evalHost (SeExprVecNode t' d0 d1 d2) st' result
        = eval platform evalHost d0 st' result
        /\ eval platform evalHost (SeExprVecNode t' d0 e1 e2) st' result
           = eval platform evalHost (SeExprVecNode t' d0 d1 d2) st' result).
Proof. simpl. repeat split. Qed.

(** [value()] of a vector with a component that is no numeric literal. *)
Lemma SeExprVecNode_value_zero (c0 c1 c2 : SeExprNode) :
  (forall t0 a t1 b t2 c,
      (c0, c1, c2) <> (SeExprNumNode t0 a, SeExprNumNode t1 b, SeExprNumNode t2 c)) ->
  value c0 c1 c2 = vsplat 0%float.
Proof.
  intros H. destruct c0; try reflexivity. destruct c1; try reflexivity.
  destruct c2; try reflexivity. exfalso. eapply H. reflexivity.
Qed.

(** X19: [isStrArg] and [getStrArg] of a call node.  Past the last
    argument ([_nargs <= n]) the first answers [false] and the second the
    empty string.  Where [isStrArg(n)] is [true], child [n] is a string
    literal and [getStrArg(n)] is its string.  Where [isStrArg(n)] is
    [false] for an [n] below [_nargs], [getStrArg(n)] casts a node that is
    no string literal and has no defined result. *)
Theorem string_argument_probes
    (t : SeExprType) (name : string) (func : option SeExprFunc) (nargs : nat)
    (args : list SeExprNode) (n : nat) :
  let node := SeExprFuncNode t name func nargs args in
  ((nargs <= n)%nat -> isStrArg node n = Some false /\ getStrArg node n = Some "")
  /\ (isStrArg node n = Some true ->
        exists ts str, args !! n = Some (SeExprStrNode ts str)
                       /\ getStrArg node n = Some str)
  /\ (isStrArg node n = Some false -> (n < nargs)%nat -> getStrArg node n = None).
Proof.
  simpl. split; [| split].
  - intros Hge. apply Nat.ltb_ge in Hge. rewrite Hge. auto.
  - intros H. repeat case_match; simplify_eq. eauto.
  - intros H Hlt. apply Nat.ltb_lt in Hlt. rewrite Hlt in *.
    repeat case_match; simplify_eq; reflexivity.
Qed.

(** ** The eval pass and the state *)

Section EvalFrame.
Context {W : Type}.
Variable platform : Platform.
Variable host : EvalHost W.

Lemma evalChildren_leavesState (cs : list SeExprNode) :
  Forall (leavesState platform host) cs -> forallb readOnly cs = true ->
  forall st r, exists r',
    evalChildren (eval platform host) cs st (Temp r) = (st, Temp r').
Proof.
  induction 1 as [|c cs Hc Hcs IH]; intros Hro st r; simpl in *; [eauto |].
  split_andb. destruct (Hc ltac:(assumption) st r) as [r1 ->]. auto.
Qed.

Lemma evalArgs_leavesState (cs : list SeExprNode) :
  Forall (leavesState platform host) cs -> forallb readOnly cs = true ->
  forall nargs st, exists a,
    evalArgs platform (eval platform host) cs nargs st = (st, a).
Proof.
  induction 1 as [|c cs Hc Hcs IH]; intros Hro nargs st; simpl in *;
    [destruct nargs; eauto |].
  destruct nargs; [eauto |]. split_andb.
  destruct (Hc ltac:(assumption) st (indeterminate platform)) as [r1 ->].
  destruct (IH ltac:(assumption) nargs st) as [a ->]. eauto.
Qed.

(** Run the next [eval] of the goal, on the child [c], with its induction
    hypothesis [IH]. *)
Ltac run_eval IH c :=
  match goal with
  | |- context [eval platform host c ?st (Temp ?r)] =>
      let r' := fresh "r" in
      let H := fresh "H" in
      destruct (IH ltac:(assumption) st r) as [r' H]; rewrite H; clear H; simpl
  end.

Lemma eval_leavesState : forall n, leavesState platform host n.
Proof.
  induction n as [n IH] using SeExprNode_children_ind.
  destruct n as [t cs | t c0 c1 | t c0 c1 c2 | t name var at_ c0 | t c0 c1 c2
                | t c0 c1 c2 | t c0 c1 | t c0 c1 | t c0 c1 | op t c0 | op t c0 c1
                | op t c0 c1 | t name var | t v | t str | t name func nargs cs];
    simpl in IH; intros Hro st r; simpl in Hro; split_andb; simpl; unfold fresh.
  - destruct (evalChildren_leavesState _ IH Hro st (indeterminate platform)) as [r' ->].
    eauto.
  - two IH. run_eval IH0 c0. run_eval IH1 c1. eauto.
  - three IH. run_eval IH0 c0. destruct (truthy _); [run_eval IH1 c1 | run_eval IH2 c2]; eauto.
  - destruct var; [discriminate | simpl; eauto].
  - three IH. run_eval IH0 c0. eauto.
  - three IH. run_eval IH0 c0. destruct (truthy _); [run_eval IH1 c1 | run_eval IH2 c2];
      repeat case_match; simpl; eauto.
  - two IH. run_eval IH0 c0. destruct (truthy _); simpl; [run_eval IH1 c1 |]; eauto.
  - two IH. run_eval IH0 c0. destruct (truthy _); simpl; [| run_eval IH1 c1]; eauto.
  - two IH. run_eval IH0 c0. run_eval IH1 c1. eauto.
  - apply Forall_cons_1 in IH as [IH0 _]. run_eval IH0 c0. eauto.
  - two IH. run_eval IH0 c0. run_eval IH1 c1. destruct op; simpl; eauto.
  - two IH. run_eval IH0 c0. run_eval IH1 c1. eauto.
  - destruct var as [[r0 | h ty] |]; simpl; eauto.
  - eauto.
  - eauto.
  - destruct func as [f|]; simpl; [| eauto].
    destruct (isFUNCX f); [discriminate |].
    destruct (evalArgs_leavesState _ IH Hro nargs st) as [a ->]. simpl. eauto.
Qed.

(** X11: what [eval] writes.  A tree in which no assignment holds a
    variable reference and no call is bound to a [FUNCX] callback is
    evaluated without a change to the state: the storage of every local
    variable and the host's world are after the call what they were
    before, on every path through conditionals and short-circuit
    operators.  The two excluded node kinds are the only places where
    [eval] writes anything but its result vector. *)
Theorem eval_read_only_leaves_state (n : SeExprNode) (st : EvalState W) (r : SeVec3d) :
  readOnly n = true ->
  exists r', eval platform host n st (Temp r) = (st, Temp r').
Proof. intros Hro. by apply eval_leavesState. Qed.

(** X12: prep keeps a tree read-only.  With a prep host that hands out no
    [FUNCX] callback, [prep] of a tree whose assignments hold no variable
    reference returns a tree that [eval] runs without a change to the
    state: [prep] binds calls to the host's functions and variable nodes to
    references, and never hands an assignment a reference to store into. *)
Theorem prep_keeps_read_only (prepHost : PrepHost) (n : SeExprNode)
    (wanted : SeExprType) (env : SeExprVarEnv) (ex : SeExpression) :
  plainHost prepHost ->
  readOnly n = true ->
  let '(n', _, _, _) := prep prepHost n wanted env ex in
  readOnly n' = true
  /\ forall st r, exists r', eval platform host n' st (Temp r) = (st, Temp r').
Proof.
  intros Hplain Hro.
  pose proof (prep_staysReadOnly prepHost Hplain n Hro wanted env ex) as H.
  destruct (prep prepHost n wanted env ex) as [[[n' ?] ?] ?]. simpl in H.
  split; [exact H |]. intros st r. by apply eval_leavesState.
Qed.

(** X13: the nodes that write lane 0 only.  [&&], [||], a subscript, the
    six comparisons, a numeric literal, and the unary and arithmetic
    operators, of a vector type too, finish by assigning one double to
    [result[0]].  The double and the state it is assigned in are those the
    operands leave, the same whatever result vector the caller passes (a
    vector of its own or the storage of a variable): lanes 1 and 2 of the
    result are after the call what they were once the operands had been
    evaluated. *)
Theorem scalar_nodes_write_lane_zero (n : SeExprNode) (st : EvalState W) :
  scalarResult n = true ->
  exists st' x,
    (forall result, eval platform host n st result = setLane platform st' result 0 x)
    /\ (forall r, eval platform host n st (Temp r) = (st', Temp (vset r 0 x)))
    /\ (forall id,
          let '(st'', _) := eval platform host n st (Storage id) in
          readLocal platform st'' id = vset (readLocal platform st' id) 0 x).
Proof.
  intros Hs.
  assert (H : exists st' x, forall result,
               eval platform host n st result = setLane platform st' result 0 x).
  { destruct n; simpl in *; try discriminate; unfold fresh;
      repeat case_match; simplify_eq; simpl in *; try discriminate; eauto.
    do 2 eexists. intros result.
    match goal with
    | |- (let '(_, _) := ?p in _) = _ => destruct p eqn:Hp; rewrite <- Hp
    end.
    reflexivity. }
  destruct H as (st' & x & H). exists st', x.
  split; [exact H |]. split; [intros r; rewrite H; reflexivity |].
  intros id. rewrite H. simpl. unfold readLocal at 1. simpl.
  by rewrite lookup_insert_eq.
Qed.


(** X15: [if] and [?:] evaluate one branch.  With the condition evaluated
    to the vector [ra], the branch that runs is the then branch when lane 0
    of [ra] is not 0.0 (a NaN chooses it) and the else branch otherwise.  An
    [if] evaluates it into the vector that held the condition and sets its
    result to 0; [?:] evaluates it into its own result and adds nothing:
    a scalar branch is not widened, also under a vector type, the widening
    being guarded by [_isVec].  The other branch is not evaluated:
    replacing it by any node changes neither the state nor the result. *)
Theorem conditional_evaluates_chosen_branch
    (t : SeExprType) (c0 c1 c2 : SeExprNode) (st st1 : EvalState W)
    (result ra : ResultRef) :
  eval platform host c0 st (fresh platform) = (st1, ra) ->
  let zero := (lane0 (readRef platform st1 ra) =? 0)%float in
  let chosen := if zero then c2 else c1 in
  eval platform host (SeExprIfThenElseNode t c0 c1 c2) st result
  = (let '(st2, _) := eval platform host chosen st1 ra in
     writeRef st2 result (vsplat 0%float))
  /\ eval platform host (SeExprCondNode t c0 c1 c2) st result
     = eval platform host chosen st1 result
  /\ (forall other,
        let c1' := if zero then other else c1 in
        let c2' := if zero then c2 else other in
        eval platform host (SeExprIfThenElseNode t c0 c1' c2') st result
        = eval platform host (SeExprIfThenElseNode t c0 c1 c2) st result
        /\ eval platform host (SeExprCondNode t c0 c1' c2') st result
           = eval platform host (SeExprCondNode t c0 c1 c2) st result).
Proof.
  intros H0 zero chosen. subst zero chosen. simpl. rewrite H0. unfold truthy.
  destruct (lane0 (readRef platform st1 ra) =? 0)%float; simpl;
    repeat split; intros;
    repeat match goal with
           | |- context [eval platform host ?c st1 result] =>
               destruct (eval platform host c st1 result)
           end; reflexivity.
Qed.

(** X17: a call of a scalar function writes lane 0.  A call of a one- or
    two-argument scalar function ([FUNC1], [FUNC2]) evaluates its arguments
    in order and applies the function once, to lane 0 of each argument,
    assigning [result[0]] and no other lane.  It does so whatever the type
    of the node is: the lane-by-lane application to a vector is guarded by
    [_isVec], which is 0. *)
Theorem scalar_function_applied_to_lane_zero
    (t : SeExprType) (name : string) (f : SeExprFunc) (c0 c1 : SeExprNode)
    (st st1 st2 : EvalState W) (ra rb result : ResultRef) :
  eval platform host c0 st (fresh platform) = (st1, ra) ->
  eval platform host c1 st1 (fresh platform) = (st2, rb) ->
  let a0 := lane0 (readRef platform st1 ra) in
  let a1 := lane0 (readRef platform st2 rb) in
  (forall g, impl f = FUNC1 g ->
     eval platform host (SeExprFuncNode t name (Some f) 1 [c0]) st result
     = setLane platform st1 result 0 (g a0))
  /\ (forall g, impl f = FUNC2 g ->
     eval platform host (SeExprFuncNode t name (Some f) 2 [c0; c1]) st result
     = setLane platform st2 result 0 (g a0 a1)).
Proof.
  intros H0 H1 a0 a1. subst a0 a1. unfold fresh in *.
  split; intros g Hg; simpl; unfold isFUNCX; rewrite Hg, H0; simpl; rewrite ?H1; simpl;
    unfold setLane, callFunc, argLane; rewrite Hg; simpl.
  - destruct (isVec c0), (readRef platform st1 ra); reflexivity.
  - destruct (isVec c0), (isVec c1), (readRef platform st1 ra),
      (readRef platform st2 rb); reflexivity.
Qed.

(** The argument buffer of read-only arguments, slot by slot. *)
Lemma evalArgs_slots (cs : list SeExprNode) :
  forallb readOnly cs = true ->
  forall nargs st, (nargs <= length cs)%nat ->
  exists a,
    evalArgs platform (eval platform host) cs nargs st = (st, a)
    /\ length a = nargs
    /\ forall k, (k < nargs)%nat ->
         exists c A, cs !! k = Some c /\ a !! k = Some A
           /\ (let '(st', arg) := eval platform host c st (fresh platform) in
               let arg := readRef platform st' arg in
               (st', if negb (isVec c) then broadcast arg else arg)) = (st, A).
Proof.
  induction cs as [|c cs IH]; intros Hro nargs st Hlen; simpl in *.
  - assert (nargs = 0)%nat as -> by lia. exists []. repeat split. intros k Hk. lia.
  - destruct nargs as [|nargs].
    + exists []. repeat split. intros k Hk. lia.
    + apply andb_true_iff in Hro as [Hc Hcs].
      destruct (eval_leavesState c Hc st (indeterminate platform)) as [r Hr].
      rewrite Hr.
      destruct (IH Hcs nargs st ltac:(lia)) as (a & -> & Hla & Hk).
      eexists. split; [reflexivity |]. split; [simpl; by rewrite Hla |].
      intros [|k] Hlt; simpl.
      * exists c. eexists. split; [reflexivity |]. split; [reflexivity |].
        unfold fresh. rewrite Hr. reflexivity.
      * apply Hk. lia.
Qed.

(** X18: [evalArgs] and [evalArg] agree.  For a call whose arguments are
    read-only trees and whose [_nargs] does not exceed the number of
    children, [evalArgs] fills exactly [_nargs] slots and leaves the state
    alone, and slot [k] holds what [evalArg(k)] returns: the value of child
    [k], widened when the child is a scalar. *)
Theorem evalArgs_agrees_with_evalArg
    (t : SeExprType) (name : string) (func : option SeExprFunc) (nargs : nat)
    (cs : list SeExprNode) (st : EvalState W) :
  forallb readOnly cs = true ->
  (nargs <= length cs)%nat ->
  exists a,
    evalArgs platform (eval platform host) cs nargs st = (st, a)
    /\ length a = nargs
    /\ forall k, (k < nargs)%nat ->
         exists A, a !! k = Some A
           /\ evalArg platform host (SeExprFuncNode t name func nargs cs) k st
              = Some (st, A).
Proof.
  intros Hro Hlen.
  destruct (evalArgs_slots cs Hro nargs st Hlen) as (a & Ha & Hla & Hk).
  exists a. split; [assumption |]. split; [assumption |].
  intros k Hlt. destruct (Hk k Hlt) as (c & A & Hc & HA & He).
  exists A. split; [assumption |]. simpl. rewrite Hc.
  unfold fresh in *.
  destruct (eval platform host c st (Temp (indeterminate platform))) as [st' arg].
  injection He as -> <-. reflexivity.
Qed.
End EvalFrame.

(** ** The further theorems at concrete inputs *)

(** The host of the library resolves [P] to a vector and hands out two
    plain functions of scalar type. *)
Lemma Library_resolveVar_valid (name : string) (v : SeExprVarRef) :
  resolveVar Library.host name = Some v -> isValid (varType v) = true.
Proof. simpl. destruct (String.eqb name "P"); intros [= <-]; reflexivity. Qed.

Lemma Library_resolveFunc_plain (name : string) (f : SeExprFunc) :
  resolveFunc Library.host name = Some f ->
  isValid (retType f) = true /\ isFUNCX f = None.
Proof. intros [=]. Qed.

Lemma Library_lookup_plain (name : string) (f : SeExprFunc) :
  lookup Library.host name = Some f ->
  isValid (retType f) = true /\ isFUNCX f = None.
Proof.
  simpl. destruct (String.eqb name "sqrt"); [intros [= <-]; split; reflexivity |].
  destruct (String.eqb name "max"); intros [= <-]; split; reflexivity.
Qed.

Lemma Library_plainHost : plainHost Library.host.
Proof.
  intros name f [H | H].
  - by apply Library_resolveFunc_plain in H as [_ ?].
  - by apply Library_lookup_plain in H as [_ ?].
Qed.

(** [sqrt($P) + $Q]: every function called is defined; the vector handed to
    [sqrt] and the unknown [Q] are both reported and the type is [Error]. *)
Lemma prep_error_iff_errors_witness :
  let host := Library.host in
  let root := SeExprAddNode ErrorType (Reference.call "sqrt" [Reference.var "P"])
                (Reference.var "Q") in
  (forall name v, resolveVar host name = Some v -> isValid (varType v) = true)
  /\ (forall name f, resolveFunc host name = Some f ->
                     isValid (retType f) = true /\ isFUNCX f = None)
  /\ (forall name f, lookup host name = Some f ->
                     isValid (retType f) = true /\ isFUNCX f = None)
  /\ allDefined host root = true
  /\ (prep host root AnyType emptyEnv emptyExpr).1.1.2 = ErrorType
  /\ errors (prep host root AnyType emptyEnv emptyExpr).2
     = ["Expected FP1 type from 0 operand to placeholder function but foundFPN(3)";
        "No variable named $Q"]
  /\ (let '(_, ty, _, ex) := prep host root AnyType emptyEnv emptyExpr in
      (ty = ErrorType -> errors ex <> [])
      /\ (allDefined host root = true -> (ty = ErrorType <-> errors ex <> []))).
Proof.
  intros host root.
  split; [exact Library_resolveVar_valid |].
  split; [exact Library_resolveFunc_plain |].
  split; [exact Library_lookup_plain |].
  do 3 (split; [reflexivity |]).
  exact (prep_error_iff_errors host Library_resolveVar_valid Library_resolveFunc_plain
           Library_lookup_plain root AnyType).
Defined.

(** [$x = max(4)] prepped in a state that already holds a message, the
    thread-safety flag, a thread-unsafe call and three references. *)
Lemma prep_only_appends_witness :
  let host := Library.host in
  let node := Reference.assign "x" (Reference.call "max" [Reference.num 4]) in
  let ex := mkExpr ["earlier"] true ["tick"] 3 in
  plainHost host
  /\ (prep host node AnyType emptyEnv ex).2
     = mkExpr ["earlier"; "Too few args for function max"] true ["tick"] 4
  /\ (let '(_, _, _, ex') := prep host node AnyType emptyEnv ex in
      (exists more, errors ex' = errors ex ++ more)%list
      /\ threadUnsafe ex' = threadUnsafe ex
      /\ threadUnsafeFunctionCalls ex' = threadUnsafeFunctionCalls ex
      /\ (allocated ex <= allocated ex')%nat).
Proof.
  intros host node ex.
  split; [exact Library_plainHost |]. split; [reflexivity |].
  exact (prep_only_appends host Library_plainHost node AnyType emptyEnv ex).
Defined.

(** [sqrt($P) + $Q]: the call is bound to [sqrt] and [P] to its reference,
    types are written at every node, and the tree is otherwise the same. *)
Lemma prep_preserves_structure_witness :
  let host := Library.host in
  let root := SeExprAddNode ErrorType (Reference.call "sqrt" [Reference.var "P"])
                (Reference.var "Q") in
  plainHost host
  /\ (prep host root AnyType emptyEnv emptyExpr).1.1.1
     = SeExprAddNode ErrorType
         (SeExprFuncNode ErrorType "sqrt" (Some Library.sqrtFunc) 1
            [SeExprVarNode (FPNType 3) "P" (Some (ExternalVarRef 0 (FPNType 3)))])
         (SeExprVarNode ErrorType "Q" None)
  /\ (let '(n', _, _, _) := prep host root AnyType emptyEnv emptyExpr in
      structure n' = structure root
      /\ length (children n') = length (children root)).
Proof.
  intros host root.
  split; [exact Library_plainHost |]. split; [reflexivity |].
  exact (prep_preserves_structure host Library_plainHost root AnyType emptyEnv emptyExpr).
Defined.

(** With [x] bound, [if (1) { x = 5 } else { y = 7 }]: the branches
    disagree, nothing is merged, and [x] is still found. *)
Lemma prep_keeps_names_visible_witness :
  let host := Library.host in
  let env := add emptyEnv "x" (mkLocalVarRef 0 FP1Type) in
  let node := SeExprIfThenElseNode ErrorType (Reference.num 1)
                (Reference.assign "x" (Reference.num 5))
                (Reference.assign "y" (Reference.num 7)) in
  plainHost host
  /\ find env "x" = Some (mkLocalVarRef 0 FP1Type)
  /\ (let '(_, _, env', _) := prep host node AnyType env emptyExpr in
      parents env' = parents env
      /\ forall name, is_Some (find env name) -> is_Some (find env' name)).
Proof.
  intros host env node.
  split; [exact Library_plainHost |]. split; [reflexivity |].
  exact (prep_keeps_names_visible host Library_plainHost node AnyType env emptyExpr).
Defined.

(** [[1,2,3]] prepped for a scalar and prepped for a string. *)
Lemma prep_ignores_wanted_witness :
  let host := Reference.emptyHost in
  let node := Reference.vec (Reference.num 1) (Reference.num 2) (Reference.num 3) in
  ignoresWanted node = true
  /\ prep host node FP1Type emptyEnv emptyExpr = prep host node StringType emptyEnv emptyExpr.
Proof.
  intros host node. split; [reflexivity |].
  exact (prep_ignores_wanted host node FP1Type StringType emptyEnv emptyExpr eq_refl).
Defined.

(** A plain node over [1], [$u] and [$y = $v]: [u] is reported, [v] is
    not, and [y] is not bound. *)
Lemma SeExprNode_prep_stops_at_failure_witness :
  let host := Reference.emptyHost in
  let rest := [Reference.assign "y" (Reference.var "v")] in
  let reported := mkExpr ["No variable named $u"] false [] 0 in
  prepChildren (prep host) [Reference.num 1] false emptyEnv emptyExpr
  = ([SeExprNumNode FP1Type 1], false, emptyEnv, emptyExpr)
  /\ prep host (Reference.var "u") AnyType emptyEnv emptyExpr
     = (SeExprVarNode ErrorType "u" None, ErrorType, emptyEnv, reported)
  /\ isValid ErrorType = false
  /\ prep host (SeExprPlainNode NoneType (Reference.num 1 :: Reference.var "u" :: rest))
       AnyType emptyEnv emptyExpr
     = (SeExprPlainNode ErrorType
          (SeExprNumNode FP1Type 1 :: SeExprVarNode ErrorType "u" None :: rest),
        ErrorType, emptyEnv, reported).
Proof.
  intros host rest reported.
  do 3 (split; [reflexivity |]).
  exact (SeExprNode_prep_stops_at_failure host NoneType AnyType ErrorType
           [Reference.num 1] [SeExprNumNode FP1Type 1] rest
           (Reference.var "u") (SeExprVarNode ErrorType "u" None)
           emptyEnv emptyEnv emptyEnv emptyExpr emptyExpr reported
           eq_refl eq_refl eq_refl).
Defined.

(** [max] takes two arguments or more: [max(4)] is rejected, and
    [max(4, 5, 6)] has the type of [max]. *)
Lemma SeExprFuncNode_prep_arity_witness :
  let host := Library.host in
  lookup host "max" = Some Library.maxFunc
  /\ prep host (Reference.call "max" [Reference.num 4]) AnyType emptyEnv emptyExpr
     = (SeExprFuncNode ErrorType "max" (Some Library.maxFunc) 1 [SeExprNumNode FP1Type 4],
        ErrorType, emptyEnv, mkExpr ["Too few args for function max"] false [] 0)
  /\ prep host (Reference.call "max" [Reference.num 4; Reference.num 5; Reference.num 6])
       AnyType emptyEnv emptyExpr
     = (SeExprFuncNode FP1Type "max" (Some Library.maxFunc) 3
          [SeExprNumNode FP1Type 4; SeExprNumNode FP1Type 5; SeExprNumNode FP1Type 6],
        FP1Type, emptyEnv, emptyExpr).
Proof.
  intros host. split; [reflexivity |]. split.
  - pose proof (SeExprFuncNode_prep_arity host ErrorType AnyType "max" None 0
                  [Reference.num 4] Library.maxFunc emptyEnv emptyExpr eq_refl) as H.
    destruct H as (Hfew & _ & _). apply Hfew. simpl. lia.
  - pose proof (SeExprFuncNode_prep_arity host ErrorType AnyType "max" None 0
                  [Reference.num 4; Reference.num 5; Reference.num 6] Library.maxFunc
                  emptyEnv emptyExpr eq_refl) as H.
    destruct H as (_ & _ & Hin). apply Hin; simpl; [lia | lia | reflexivity].
Defined.

(** [$u] with nothing resolved. *)
Lemma SeExprVarNode_unresolved_evaluates_to_zero_witness :
  let host := Reference.emptyHost in
  find emptyEnv "u" = None
  /\ resolveVar host "u" = None
  /\ (let '(node, ty, env', ex') :=
        prep host (Reference.var "u") AnyType emptyEnv emptyExpr in
      ty = ErrorType /\ env' = emptyEnv
      /\ errors ex' = (errors emptyExpr ++ [noVariableError "u"])%list
      /\ forall st result,
           eval Reference.platform Reference.emptyEvalHost node st result
           = writeRef st result (vsplat 0%float)).
Proof.
  intros host. do 2 (split; [reflexivity |]).
  exact (SeExprVarNode_unresolved_evaluates_to_zero host Reference.platform
           Reference.emptyEvalHost ErrorType AnyType "u" None emptyEnv emptyExpr
           eq_refl eq_refl).
Defined.

(** [foo(1)] with nothing resolved and an empty registry. *)
Lemma SeExprFuncNode_undefined_evaluates_to_zero_witness :
  let host := Reference.emptyHost in
  resolveFunc host "foo" = None
  /\ lookup host "foo" = None
  /\ (let '(node, _, _, _) :=
        prep host (Reference.call "foo" [Reference.num 1]) AnyType emptyEnv emptyExpr in
      forall st result,
        eval Reference.platform Reference.emptyEvalHost node st result
        = writeRef st result (vsplat 0%float)).
Proof.
  intros host. do 2 (split; [reflexivity |]).
  exact (SeExprFuncNode_undefined_evaluates_to_zero host Reference.platform
           Reference.emptyEvalHost ErrorType AnyType "foo" None 0 [Reference.num 1]
           emptyEnv emptyExpr eq_refl eq_refl).
Defined.

(** [1 ? $P : 2] as a vector node, with [P] at (4, 9, 16). *)
Lemma eval_read_only_leaves_state_witness :
  let P := SeExprVarNode (FPNType 3) "P" (Some (ExternalVarRef 0 (FPNType 3))) in
  let node := SeExprCondNode (FPNType 3) (SeExprNumNode FP1Type 1) P
                (SeExprNumNode FP1Type 2) in
  readOnly node = true
  /\ eval Reference.platform Library.evalHost node Library.state (Temp (vsplat 0))
     = (Library.state, Temp (mkSeVec3d 4 9 16))
  /\ exists r', eval Reference.platform Library.evalHost node Library.state
                  (Temp (vsplat 0))
                = (Library.state, Temp r').
Proof.
  intros P node. do 2 (split; [reflexivity |]).
  exact (eval_read_only_leaves_state Reference.platform Library.evalHost node
           Library.state (vsplat 0) eq_refl).
Defined.

(** [$x = max(1, 2)] as the parser leaves it. *)
Lemma prep_keeps_read_only_witness :
  let node := Reference.assign "x" (Reference.call "max" [Reference.num 1; Reference.num 2]) in
  plainHost Library.host
  /\ readOnly node = true
  /\ (let '(n', _, _, _) := prep Library.host node AnyType emptyEnv emptyExpr in
      readOnly n' = true
      /\ forall st r, exists r',
           eval Reference.platform Library.evalHost n' st (Temp r) = (st, Temp r')).
Proof.
  intros node. split; [exact Library_plainHost |]. split; [reflexivity |].
  exact (prep_keeps_read_only Reference.platform Library.evalHost Library.host node
           AnyType emptyEnv emptyExpr Library_plainHost eq_refl).
Defined.

(** [-$P] typed [FPN(3)], with [P] at (4, 9, 16), evaluated into
    (0, 0, 0): lane 0 is negated and nothing else is written. *)
Lemma scalar_nodes_write_lane_zero_witness :
  let platform := Reference.platform in
  let host := Library.evalHost in
  let st := Library.state in
  let P := SeExprVarNode (FPNType 3) "P" (Some (ExternalVarRef 0 (FPNType 3))) in
  let node := SeExprNegNode (FPNType 3) P in
  scalarResult node = true
  /\ prep Library.host (SeExprNegNode ErrorType (Reference.var "P")) AnyType emptyEnv
       emptyExpr
     = (node, FPNType 3, emptyEnv, emptyExpr)
  /\ eval platform host node st (Temp (vsplat 0)) = (st, Temp (mkSeVec3d (-4) 0 0))
  /\ exists st' x,
       (forall result, eval platform host node st result = setLane platform st' result 0 x)
       /\ (forall r, eval platform host node st (Temp r) = (st', Temp (vset r 0 x)))
       /\ (forall id,
             let '(st'', _) := eval platform host node st (Storage id) in
             readLocal platform st'' id = vset (readLocal platform st' id) 0 x).
Proof.
  intros platform host st P node. do 3 (split; [reflexivity |]).
  exact (scalar_nodes_write_lane_zero platform host node st eq_refl).
Defined.


(** [0 ? tick() : 2] typed [FPN(3)] and [if (0) { tick() } else { 2 }],
    evaluated into (9, 9, 9): the counter of [tick] stays at 0, and the
    conditional writes the 2 into lane 0 only. *)
Lemma conditional_evaluates_chosen_branch_witness :
  let platform := Reference.platform in
  let host := Reference.tickEvalHost in
  let st := mkEvalState ∅ 0%nat in
  let zero := SeExprNumNode FP1Type 0 in
  let tick := SeExprFuncNode FP1Type "tick" (Some Reference.tick) 0 [] in
  let two := SeExprNumNode FP1Type 2 in
  eval platform host zero st (fresh platform) = (st, Temp (mkSeVec3d 0 nan nan))
  /\ eval platform host tick st (Temp (vsplat 9))
     = (mkEvalState ∅ 1%nat, Temp (mkSeVec3d 1 9 9))
  /\ eval platform host (SeExprIfThenElseNode NoneType zero tick two) st (Temp (vsplat 9))
     = (st, Temp (vsplat 0))
  /\ eval platform host (SeExprCondNode (FPNType 3) zero tick two) st (Temp (vsplat 9))
     = (st, Temp (mkSeVec3d 2 9 9)).
Proof.
  intros platform host st zero tick two. do 2 (split; [reflexivity |]).
  pose proof (conditional_evaluates_chosen_branch platform host NoneType zero tick two
                st st (Temp (vsplat 9)) (Temp (mkSeVec3d 0 nan nan)) eq_refl) as Hif.
  pose proof (conditional_evaluates_chosen_branch platform host (FPNType 3) zero tick two
                st st (Temp (vsplat 9)) (Temp (mkSeVec3d 0 nan nan)) eq_refl) as Hcond.
  destruct Hif as (Hif & _). destruct Hcond as (_ & Hcond & _).
  split; [exact Hif | exact Hcond].
Defined.

(** [sqrt(16)] and [max(3, 7)] as [prep] leaves them, evaluated into
    (9, 9, 9). *)
Lemma scalar_function_applied_to_lane_zero_witness :
  let platform := Reference.platform in
  let host := Library.evalHost in
  let st := Library.state in
  let num x := SeExprNumNode FP1Type x in
  let root := SeExprFuncNode FP1Type "sqrt" (Some Library.sqrtFunc) 1 [num 16%float] in
  let larger :=
    SeExprFuncNode FP1Type "max" (Some Library.maxFunc) 2 [num 3%float; num 7%float] in
  prep Library.host (Reference.call "sqrt" [Reference.num 16]) AnyType emptyEnv emptyExpr
  = (root, FP1Type, emptyEnv, emptyExpr)
  /\ prep Library.host (Reference.call "max" [Reference.num 3; Reference.num 7]) AnyType
       emptyEnv emptyExpr
     = (larger, FP1Type, emptyEnv, emptyExpr)
  /\ eval platform host (num 16%float) st (fresh platform)
     = (st, Temp (mkSeVec3d 16 nan nan))
  /\ eval platform host (num 3%float) st (fresh platform) = (st, Temp (mkSeVec3d 3 nan nan))
  /\ eval platform host (num 7%float) st (fresh platform) = (st, Temp (mkSeVec3d 7 nan nan))
  /\ eval platform host root st (Temp (vsplat 9)) = (st, Temp (mkSeVec3d 4 9 9))
  /\ eval platform host larger st (Temp (vsplat 9)) = (st, Temp (mkSeVec3d 7 9 9)).
Proof.
  intros platform host st num root larger. do 5 (split; [reflexivity |]).
  pose proof (scalar_function_applied_to_lane_zero platform host FP1Type "sqrt"
                Library.sqrtFunc (num 16%float) (num 16%float) st st st
                (Temp (mkSeVec3d 16 nan nan)) (Temp (mkSeVec3d 16 nan nan))
                (Temp (vsplat 9)) eq_refl eq_refl) as Hroot.
  pose proof (scalar_function_applied_to_lane_zero platform host FP1Type "max"
                Library.maxFunc (num 3%float) (num 7%float) st st st
                (Temp (mkSeVec3d 3 nan nan)) (Temp (mkSeVec3d 7 nan nan))
                (Temp (vsplat 9)) eq_refl eq_refl) as Hlarger.
  destruct Hroot as (Hroot & _). destruct Hlarger as (_ & Hlarger).
  split; [exact (Hroot PrimFloat.sqrt eq_refl) | exact (Hlarger Library.max eq_refl)].
Defined.

(** The two arguments of [max(1, $P)], with [P] at (4, 9, 16). *)
Lemma evalArgs_agrees_with_evalArg_witness :
  let platform := Reference.platform in
  let host := Library.evalHost in
  let st := Library.state in
  let P := SeExprVarNode (FPNType 3) "P" (Some (ExternalVarRef 0 (FPNType 3))) in
  let cs := [SeExprNumNode FP1Type 1; P] in
  forallb readOnly cs = true
  /\ (2 <= length cs)%nat
  /\ evalArgs platform (eval platform host) cs 2 st
     = (st, [mkSeVec3d 1 1 1; mkSeVec3d 4 9 16])
  /\ exists a,
       evalArgs platform (eval platform host) cs 2 st = (st, a)
       /\ length a = 2%nat
       /\ forall k, (k < 2)%nat ->
            exists A, a !! k = Some A
              /\ evalArg platform host
                   (SeExprFuncNode FP1Type "max" (Some Library.maxFunc) 2 cs) k st
                 = Some (st, A).
Proof.
  intros platform host st P cs.
  split; [reflexivity |]. split; [simpl; lia |]. split; [reflexivity |].
  exact (evalArgs_agrees_with_evalArg platform host FP1Type "max" (Some Library.maxFunc)
           2 cs st eq_refl (le_n 2)).
Defined.

(** The two arguments of [f("a", 1)], and the index past them. *)
Lemma string_argument_probes_witness :
  let node := SeExprFuncNode ErrorType "f" None 2
                [SeExprStrNode StringType "a"; SeExprNumNode FP1Type 1] in
  (isStrArg node 2 = Some false /\ getStrArg node 2 = Some "")
  /\ (isStrArg node 0 = Some true /\ getStrArg node 0 = Some "a")
  /\ (isStrArg node 1 = Some false /\ getStrArg node 1 = None).
Proof.
  intros node.
  pose proof (string_argument_probes ErrorType "f" None 2
                [SeExprStrNode StringType "a"; SeExprNumNode FP1Type 1]) as H.
  split; [| split].
  - destruct (H 2%nat) as (Hpast & _ & _). apply Hpast. lia.
  - split; [reflexivity |].
    destruct (H 0%nat) as (_ & Hstr & _).
    destruct (Hstr eq_refl) as (ts & str & Hchild & Hget).
    injection Hchild as <- <-. exact Hget.
  - split; [reflexivity |].
    destruct (H 1%nat) as (_ & _ & Hno). apply Hno; [reflexivity | lia].
Defined.
